(** * NuGet Package Upgrade: the aggregation engine of [src/extension.ts]

    A shallow embedding of the extension's payload extractor, inventory
    normaliser, candidate presenter and upgrade orchestrator, followed by
    the properties the specification states about them.

    Conventions.
    - A JavaScript string is a [string]: one [ascii] per code unit, so
      the model covers strings whose code units are below 256.
    - A JavaScript number that is an index, a length or an exit status
      is a [Z].
    - [undefined] is [None]; a value that may be [undefined] is an
      [option].
    - A [Set<string>] and a [Map<string, _>] iterate in insertion order,
      so they are lists that keep that order and hold no key twice. *)

From Stdlib Require Import List String Ascii ZArith Lia Bool.
From Stdlib Require Import Sorted Permutation DecimalString.
Import ListNotations.

Local Open Scope string_scope.
Local Open Scope list_scope.
Local Open Scope Z_scope.

Set Warnings "-register-all".

(* ================================================================== *)
(** * Platform strings *)

Module JS.

(** [s.length] *)
Definition length (s : string) : Z := Z.of_nat (String.length s).

(** [text.indexOf(c)] for a one-unit search string: the position of
    the first occurrence, or -1. *)
Fixpoint indexOf (text : string) (c : ascii) : Z :=
  match text with
  | EmptyString => -1
  | String a rest =>
      if Ascii.eqb a c then 0
      else let i := indexOf rest c in
           if i =? -1 then -1 else i + 1
  end.

(** [text.lastIndexOf(c)] for a one-unit search string: the position
    of the last occurrence, or -1. *)
Fixpoint lastIndexOf (text : string) (c : ascii) : Z :=
  match text with
  | EmptyString => -1
  | String a rest =>
      let i := lastIndexOf rest c in
      if i =? -1 then (if Ascii.eqb a c then 0 else -1) else i + 1
  end.

(** [text.slice(start, end)]: a negative bound counts from the end,
    both bounds are clamped to the string, and an empty range gives
    the empty string. *)
Definition slice (text : string) (start end_ : Z) : string :=
  let len := length text in
  let from := if start <? 0 then Z.max (len + start) 0 else Z.min start len in
  let to := if end_ <? 0 then Z.max (len + end_) 0 else Z.min end_ len in
  substring (Z.to_nat from) (Z.to_nat (Z.max (to - from) 0)) text.

(** White space and line terminators among the code units below 256:
    TAB, LF, VT, FF, CR, SP and NBSP. *)
Definition isWhiteSpace (a : ascii) : bool :=
  let n := nat_of_ascii a in
  ((9 <=? n)%nat && (n <=? 13)%nat) || (n =? 32)%nat || (n =? 160)%nat.

Fixpoint trimStart (s : string) : string :=
  match s with
  | EmptyString => EmptyString
  | String a rest => if isWhiteSpace a then trimStart rest else s
  end.

Fixpoint trimEnd (s : string) : string :=
  match s with
  | EmptyString => EmptyString
  | String a rest =>
      match trimEnd rest with
      | EmptyString => if isWhiteSpace a then EmptyString else String a EmptyString
      | kept => String a kept
      end
  end.

(** [s.trim()] *)
Definition trim (s : string) : string := trimEnd (trimStart s).

(** [parts.join(sep)] on an array of strings. *)
Fixpoint join (sep : string) (parts : list string) : string :=
  match parts with
  | [] => ""
  | [p] => p
  | p :: rest => p ++ sep ++ join sep rest
  end.

(** Truthiness of a string: every string but the empty one. *)
Definition truthy (s : string) : bool :=
  match s with EmptyString => false | String _ _ => true end.

End JS.

(* ================================================================== *)
(** * Payload extractor *)

Definition open_brace : ascii := "{"%char.
Definition close_brace : ascii := "}"%char.

(** [extractJsonPayload], lines 86-93. *)
Definition extractJsonPayload (text : string) : string :=
  let firstBrace := JS.indexOf text open_brace in
  let lastBrace := JS.lastIndexOf text close_brace in
  if (firstBrace =? -1) || (lastBrace =? -1) || (lastBrace <=? firstBrace)
  then text
  else JS.slice text firstBrace (lastBrace + 1).

(** Vocabulary for positions in a string: [c] occurs in [s], [i] is the
    position of its first occurrence, [i] is the position of its last. *)
Definition occurs (c : ascii) (s : string) : Prop :=
  exists i, String.get i s = Some c.

Definition first_at (c : ascii) (s : string) (i : nat) : Prop :=
  String.get i s = Some c /\ forall k, (k < i)%nat -> String.get k s <> Some c.

Definition last_at (c : ascii) (s : string) (i : nat) : Prop :=
  String.get i s = Some c /\ forall k, (i < k)%nat -> String.get k s <> Some c.

(* ================================================================== *)
(** * Parsed documents *)

(** A value as [JSON.parse] returns it.  A number is kept abstract: the
    normaliser never computes with one, it only prints it.  An object is
    the list of its own properties; [JSON.parse] yields no key twice. *)
Inductive json (number : Type) : Type :=
| JNull
| JBool (b : bool)
| JNumber (n : number)
| JString (s : string)
| JArray (items : list (json number))
| JObject (fields : list (string * json number)).

Arguments JNull {number}.
Arguments JBool {number} b.
Arguments JNumber {number} n.
Arguments JString {number} s.
Arguments JArray {number} items.
Arguments JObject {number} fields.

(** What a [throw] carries: both kinds that can arise are [Error]
    objects with a [message]. *)
Inductive Error : Type :=
| SyntaxError (message : string)
| TypeError (message : string).

Definition message (err : Error) : string :=
  match err with SyntaxError m => m | TypeError m => m end.

(** V8's text for a failed conversion of an object to a primitive. *)
Definition cannot_convert : string := "Cannot convert object to primitive value".

(** A computation that returns or throws. *)
Definition Throws (A : Type) : Type := Error + A.

Definition ret {A : Type} (a : A) : Throws A := inr a.
Definition throw {A : Type} (err : Error) : Throws A := inl err.
Definition bind {A B : Type} (m : Throws A) (k : A -> Throws B) : Throws B :=
  match m with inl err => inl err | inr a => k a end.

Notation "x <- m ;; k" := (bind m (fun x => k))
  (at level 61, m at next level, right associativity).

(** A [for (const x of items)] loop whose body updates a state and may
    throw: the first throw ends the loop. *)
Fixpoint for_of {S A : Type} (body : S -> A -> Throws S) (items : list A) (s : S)
  : Throws S :=
  match items with
  | [] => ret s
  | x :: rest => s' <- body s x ;; for_of body rest s'
  end.

(* ================================================================== *)
(** * Sets and maps in insertion order *)

(** [Set<string>] *)
Definition StringSet : Type := list string.

Definition Set_has (s : StringSet) (x : string) : bool :=
  existsb (String.eqb x) s.

Definition Set_add (s : StringSet) (x : string) : StringSet :=
  if Set_has s x then s else s ++ [x].

Definition Set_size (s : StringSet) : Z := Z.of_nat (List.length s).

(** [OutdatedPackage], lines 79-84. *)
Record OutdatedPackage : Type := {
  id : string;
  resolvedVersions : StringSet;
  latestVersions : StringSet;
  contexts : StringSet
}.

(** [Map<string, OutdatedPackage>] *)
Definition PackageMap : Type := list (string * OutdatedPackage).

Fixpoint Map_get (m : PackageMap) (key : string) : option OutdatedPackage :=
  match m with
  | [] => None
  | (k, v) :: rest => if String.eqb k key then Some v else Map_get rest key
  end.

(** [m.set(key, v)]: a known key keeps its place, a new one goes last. *)
Fixpoint Map_set (m : PackageMap) (key : string) (v : OutdatedPackage) : PackageMap :=
  match m with
  | [] => [(key, v)]
  | (k, old) :: rest =>
      if String.eqb k key then (k, v) :: rest else (k, old) :: Map_set rest key v
  end.

(** [Array.from(m.values())] *)
Definition Map_values (m : PackageMap) : list OutdatedPackage := map snd m.

(** The object a map holds under [key] is shared with whoever got it
    from the map: a mutation of it shows in the map, at the same place. *)
Fixpoint Map_mutate (m : PackageMap) (key : string)
    (f : OutdatedPackage -> OutdatedPackage) : PackageMap :=
  match m with
  | [] => []
  | (k, v) :: rest =>
      if String.eqb k key then (k, f v) :: rest else (k, v) :: Map_mutate rest key f
  end.

(** [arr.sort(compare)]: the sort is stable, and for a consistent
    comparator every stable sort gives this result.  Insertion from
    the right keeps an element before the equal ones that followed it. *)
Fixpoint sort_insert {A : Type} (compare : A -> A -> Z) (x : A) (sorted : list A)
  : list A :=
  match sorted with
  | [] => [x]
  | y :: rest =>
      if compare x y <=? 0 then x :: y :: rest
      else y :: sort_insert compare x rest
  end.

Fixpoint Array_sort {A : Type} (compare : A -> A -> Z) (arr : list A) : list A :=
  match arr with
  | [] => []
  | x :: rest => sort_insert compare x (Array_sort compare rest)
  end.

(* ================================================================== *)
(** * Sample platform, for running the model on concrete documents *)

(** Code-unit order, as a comparator. *)
Definition unit_compare (a b : string) : Z :=
  match String.compare a b with Lt => -1 | Eq => 0 | Gt => 1 end.

(** Integers printed in decimal, as a sample of numbers. *)
Definition print_Z (n : Z) : string :=
  match n with
  | Z0 => "0"
  | Zpos p => NilEmpty.string_of_uint (Pos.to_uint p)
  | Zneg p => "-" ++ NilEmpty.string_of_uint (Pos.to_uint p)
  end.

(** Sample documents, as [JSON.parse] would return them. *)
Definition sample_package (name resolved latest : string) : json Z :=
  JObject [("id", JString name);
           ("resolvedVersion", JString resolved);
           ("latestVersion", JString latest)].

Definition sample_framework (name : string) (pkgs : list (json Z)) : json Z :=
  JObject [("name", JString name); ("topLevelPackages", JArray pkgs)].

Definition sample_project (name : string) (fws : list (json Z)) : json Z :=
  JObject [("name", JString name); ("frameworks", JArray fws)].

Definition sample_document (projects : list (json Z)) : json Z :=
  JObject [("projects", JArray projects)].

(** One package under one framework. *)
Definition doc_single : json Z :=
  sample_document
    [sample_project "App"
       [sample_framework "net8.0"
          [sample_package "Newtonsoft.Json" "13.0.1" "13.0.3"]]].

(** One package under two frameworks that resolve it differently, and a
    second package. *)
Definition doc_two_frameworks : json Z :=
  sample_document
    [sample_project "App"
       [sample_framework "net6.0" [sample_package "Foo" "13.0.1" "13.0.3"];
        sample_framework "net8.0" [sample_package "Foo" "13.0.5" "13.0.3";
                                   sample_package "Bar" "1.0" "2.0"]]].

(** The same packages, the frameworks in the other order. *)
Definition doc_two_frameworks_swapped : json Z :=
  sample_document
    [sample_project "App"
       [sample_framework "net8.0" [sample_package "Foo" "13.0.5" "13.0.3";
                                   sample_package "Bar" "1.0" "2.0"];
        sample_framework "net6.0" [sample_package "Foo" "13.0.1" "13.0.3"]]].

(** A package whose resolved version is the empty string. *)
Definition doc_empty_version : json Z :=
  sample_document
    [sample_project "App"
       [sample_framework "net8.0" [sample_package "Foo" "" "2.0"]]].

(** The candidates of the sample documents. *)
Definition candidate_single : OutdatedPackage :=
  {| id := "Newtonsoft.Json";
     resolvedVersions := ["13.0.1"];
     latestVersions := ["13.0.3"];
     contexts := ["App (net8.0)"] |}.

Definition candidate_Bar : OutdatedPackage :=
  {| id := "Bar";
     resolvedVersions := ["1.0"];
     latestVersions := ["2.0"];
     contexts := ["App (net8.0)"] |}.

Definition candidate_Foo : OutdatedPackage :=
  {| id := "Foo";
     resolvedVersions := ["13.0.1"; "13.0.5"];
     latestVersions := ["13.0.3"];
     contexts := ["App (net6.0)"; "App (net8.0)"] |}.

Definition candidate_Foo_swapped : OutdatedPackage :=
  {| id := "Foo";
     resolvedVersions := ["13.0.5"; "13.0.1"];
     latestVersions := ["13.0.3"];
     contexts := ["App (net8.0)"; "App (net6.0)"] |}.

Definition candidate_empty_version : OutdatedPackage :=
  {| id := "Foo";
     resolvedVersions := [];
     latestVersions := ["2.0"];
     contexts := ["App (net8.0)"] |}.

(** The text of a sample document: strings are written between quotes
    as they are, which is enough for the samples. *)
Definition quote : string := String (ascii_of_nat 34) EmptyString.

Fixpoint stringify (v : json Z) : string :=
  match v with
  | JNull => "null"
  | JBool true => "true"
  | JBool false => "false"
  | JNumber n => print_Z n
  | JString s => quote ++ s ++ quote
  | JArray items => "[" ++ JS.join "," (map stringify items) ++ "]"
  | JObject fields =>
      "{" ++ JS.join ","
               (map (fun kv : string * json Z =>
                       match kv with
                       | (k, x) => (quote ++ k ++ quote ++ ":" ++ stringify x)%string
                       end) fields) ++ "}"
  end.

(** A parser that knows the text of two sample documents, enough to run
    the model from the text on. *)
Definition sample_parse (text : string) : Throws (json Z) :=
  if String.eqb text (stringify doc_two_frameworks) then ret doc_two_frameworks
  else if String.eqb text (stringify doc_single) then ret doc_single
  else throw (SyntaxError "Unexpected token").

(** The output of the tool, with a log line on each side of the payload. *)
Definition sample_output : string :=
  "warn: restoring " ++ stringify doc_two_frameworks ++ " done".

(* ================================================================== *)
(** * The extension *)

Section Extension.

(** The platform: numbers and their printing, the collation behind
    [String.prototype.localeCompare], and [JSON.parse]. *)
Variable number : Type.
Variable Number_toString : number -> string.
Variable localeCompare : string -> string -> Z.
Variable JSON_parse : string -> Throws (json number).

(** [localeCompare] is a consistent comparator, as the language
    requires of it: it orders any two strings one way or the other, and
    its order is transitive. *)
Hypothesis localeCompare_total :
  forall a b, 0 < localeCompare a b -> localeCompare b a <= 0.
Hypothesis localeCompare_trans :
  forall a b c,
    localeCompare a b <= 0 -> localeCompare b c <= 0 -> localeCompare a c <= 0.

Local Abbreviation value := (json number).

(** ** Reading a parsed document *)

(** The own property [key] of an object. *)
Fixpoint own_property (fields : list (string * value)) (key : string)
  : option value :=
  match fields with
  | [] => None
  | (k, v) :: rest => if String.eqb k key then Some v else own_property rest key
  end.

(** [v?.key] for the keys the normaliser reads: none of them is a
    property of a string, a number, a boolean, an array or of
    [Object.prototype], so only an object's own property answers. *)
Definition get (v : value) (key : string) : option value :=
  match v with
  | JObject fields => own_property fields key
  | _ => None
  end.

(** [a ?? b] *)
Definition coalesce (a b : option value) : option value :=
  match a with
  | None | Some JNull => b
  | Some _ => a
  end.

(** [a ?? "literal"] *)
Definition coalesce_literal (a : option value) (literal : string) : value :=
  match a with
  | None | Some JNull => JString literal
  | Some v => v
  end.

(** [Array.isArray(v) ? v : []] *)
Definition array_or_empty (v : option value) : list value :=
  match v with
  | Some (JArray items) => items
  | _ => []
  end.

(** [typeof v === "string" ? v : undefined] *)
Definition string_or_undefined (v : option value) : option string :=
  match v with
  | Some (JString s) => Some s
  | _ => None
  end.

(** The conversion a template literal applies to a substitution.  An
    array prints its elements joined by commas, [null] among them as
    the empty string.  An object prints as [[object Object]] unless it
    has an own [toString]: a parsed value is never callable, so the
    conversion finds no method that gives a primitive, and throws. *)
Fixpoint ToString (v : value) : Throws string :=
  match v with
  | JNull => ret "null"
  | JBool true => ret "true"
  | JBool false => ret "false"
  | JNumber n => ret (Number_toString n)
  | JString s => ret s
  | JArray items =>
      parts <- (fix each (l : list value) : Throws (list string) :=
                  match l with
                  | [] => ret []
                  | x :: rest =>
                      p <- match x with JNull => ret "" | _ => ToString x end ;;
                      ps <- each rest ;;
                      ret (p :: ps)
                  end) items ;;
      ret (JS.join "," parts)
  | JObject fields =>
      match own_property fields "toString" with
      | Some _ => throw (TypeError cannot_convert)
      | None => ret "[object Object]"
      end
  end.

(** ** Inventory normaliser *)

(** What the loop body reads from one package before it touches the
    map: the constants [id], [resolved], [latest] and [context]. *)
Record Entry : Type := {
  entry_id : string;
  entry_resolved : option string;
  entry_latest : option string;
  entry_context : string
}.

(** Lines 109-116.  [None] is the [continue] of line 111. *)
Definition read_package (projectName frameworkName pkg : value)
  : Throws (option Entry) :=
  match coalesce (get pkg "id") (get pkg "name") with
  | Some (JString id) =>
      if negb (JS.truthy id) then ret None
      else
        let resolved := string_or_undefined (get pkg "resolvedVersion") in
        let latest := string_or_undefined (get pkg "latestVersion") in
        p <- ToString projectName ;;
        f <- ToString frameworkName ;;
        ret (Some {| entry_id := id;
                     entry_resolved := resolved;
                     entry_latest := latest;
                     entry_context := p ++ " (" ++ f ++ ")" |})
  | _ => ret None
  end.

(** Lines 120-125. *)
Definition new_entry (id : string) : OutdatedPackage :=
  {| id := id; resolvedVersions := []; latestVersions := []; contexts := [] |}.

(** [if (version) { set.add(version); }] *)
Definition add_if_truthy (s : StringSet) (version : option string) : StringSet :=
  match version with
  | Some v => if JS.truthy v then Set_add s v else s
  | None => s
  end.

(** Lines 129-135, as one update of the entry. *)
Definition record_entry (e : Entry) (entry : OutdatedPackage) : OutdatedPackage :=
  {| id := id entry;
     resolvedVersions := add_if_truthy (resolvedVersions entry) (entry_resolved e);
     latestVersions := add_if_truthy (latestVersions entry) (entry_latest e);
     contexts := Set_add (contexts entry) (entry_context e) |}.

(** Lines 118-135. *)
Definition merge_entry (packages : PackageMap) (e : Entry) : PackageMap :=
  let packages :=
    match Map_get packages (entry_id e) with
    | Some _ => packages
    | None => Map_set packages (entry_id e) (new_entry (entry_id e))
    end in
  Map_mutate packages (entry_id e) (record_entry e).

(** Lines 108-136: the body of the innermost loop. *)
Definition process_package (projectName frameworkName : value)
    (packages : PackageMap) (pkg : value) : Throws PackageMap :=
  r <- read_package projectName frameworkName pkg ;;
  match r with
  | None => ret packages
  | Some e => ret (merge_entry packages e)
  end.

(** Line 101: [project?.name ?? project?.path ?? "unknown"] *)
Definition projectName_of (project : value) : value :=
  coalesce_literal (coalesce (get project "name") (get project "path")) "unknown".

(** Line 105: [framework?.name ?? "unknown"] *)
Definition frameworkName_of (framework : value) : value :=
  coalesce_literal (get framework "name") "unknown".

(** Lines 104-137. *)
Definition process_framework (projectName : value)
    (packages : PackageMap) (framework : value) : Throws PackageMap :=
  let frameworkName := frameworkName_of framework in
  let topLevel := array_or_empty (get framework "topLevelPackages") in
  for_of (process_package projectName frameworkName) topLevel packages.

(** Lines 100-138. *)
Definition process_project (packages : PackageMap) (project : value)
  : Throws PackageMap :=
  let projectName := projectName_of project in
  let frameworks := array_or_empty (get project "frameworks") in
  for_of (process_framework projectName) frameworks packages.

(** Lines 97-138: the map once the loops are over. *)
Definition collect (data : value) : Throws PackageMap :=
  let projects := array_or_empty (get data "projects") in
  for_of process_project projects [].

Definition by_id (a b : OutdatedPackage) : Z := localeCompare (id a) (id b).

(** Lines 97-140: normalisation of a parsed document. *)
Definition normalize (data : value) : Throws (list OutdatedPackage) :=
  packages <- collect data ;;
  ret (Array_sort by_id (Map_values packages)).

(** [parseOutdatedPackages], lines 95-141. *)
Definition parseOutdatedPackages (jsonText : string)
  : Throws (list OutdatedPackage) :=
  data <- JSON_parse (extractJsonPayload jsonText) ;;
  normalize data.

(** ** What a merged candidate holds *)

Definition keys (m : PackageMap) : list string := map fst m.

(** The entry a package is merged into: the one the map holds, or a
    fresh one. *)
Definition entry_for (packages : PackageMap) (key : string) : OutdatedPackage :=
  match Map_get packages key with
  | Some entry => entry
  | None => new_entry key
  end.

(** The map after the entries [es] have been merged, in that order. *)
Definition accumulate (es : list Entry) : PackageMap := fold_left merge_entry es [].

(** Two sets with the same elements, whatever their insertion order. *)
Definition same_elements (a b : StringSet) : Prop := forall x, In x a <-> In x b.

(** [c] holds the data of exactly the entries of [es] that have its id:
    their truthy versions and their contexts. *)
Definition merges (es : list Entry) (c : OutdatedPackage) : Prop :=
  (forall v, In v (resolvedVersions c) <->
     exists e, In e es /\ entry_id e = id c /\ entry_resolved e = Some v /\ v <> "") /\
  (forall v, In v (latestVersions c) <->
     exists e, In e es /\ entry_id e = id c /\ entry_latest e = Some v /\ v <> "") /\
  (forall x, In x (contexts c) <->
     exists e, In e es /\ entry_id e = id c /\ entry_context e = x).

(** The sets of a candidate hold no element twice. *)
Definition sets_NoDup (c : OutdatedPackage) : Prop :=
  NoDup (resolvedVersions c) /\ NoDup (latestVersions c) /\ NoDup (contexts c).

(** The state of the map once the entries [es] have been merged. *)
Definition merged_map (es : list Entry) (m : PackageMap) : Prop :=
  NoDup (keys m) /\
  (forall k, In k (keys m) <-> exists e, In e es /\ entry_id e = k) /\
  (forall k c, Map_get m k = Some c -> id c = k /\ merges es c /\ sets_NoDup c).

(** Ascending order of candidates under the comparator of the sort. *)
Definition id_le (a b : OutdatedPackage) : Prop := by_id a b <= 0.

(** Two candidates with the same id and the same merged sets. *)
Definition same_candidate (a b : OutdatedPackage) : Prop :=
  id a = id b /\
  same_elements (resolvedVersions a) (resolvedVersions b) /\
  same_elements (latestVersions a) (latestVersions b) /\
  same_elements (contexts a) (contexts b).

(** Two sequences that hold the same candidates, in whatever order. *)
Definition same_candidates (l1 l2 : list OutdatedPackage) : Prop :=
  (forall a, In a l1 -> exists b, In b l2 /\ same_candidate a b) /\
  (forall b, In b l2 -> exists a, In a l1 /\ same_candidate a b).

(** The versions of a candidate are truthy strings. *)
Definition versions_truthy (c : OutdatedPackage) : Prop :=
  (forall v, In v (resolvedVersions c) -> v <> "") /\
  (forall v, In v (latestVersions c) -> v <> "").

(** ** The package entries of a document, in traversal order *)

Fixpoint collect_some {A B : Type} (f : A -> Throws (option B)) (l : list A)
  : Throws (list B) :=
  match l with
  | [] => ret []
  | x :: rest =>
      r <- f x ;;
      rs <- collect_some f rest ;;
      ret (match r with Some b => b :: rs | None => rs end)
  end.

Fixpoint collect_all {A B : Type} (f : A -> Throws (list B)) (l : list A)
  : Throws (list B) :=
  match l with
  | [] => ret []
  | x :: rest =>
      r <- f x ;;
      rs <- collect_all f rest ;;
      ret (r ++ rs)
  end.

Definition framework_entries (projectName framework : value) : Throws (list Entry) :=
  let frameworkName := frameworkName_of framework in
  collect_some (read_package projectName frameworkName)
               (array_or_empty (get framework "topLevelPackages")).

Definition project_entries (project : value) : Throws (list Entry) :=
  let projectName := projectName_of project in
  collect_all (framework_entries projectName)
              (array_or_empty (get project "frameworks")).

Definition entries (data : value) : Throws (list Entry) :=
  collect_all project_entries (array_or_empty (get data "projects")).

(** ** Candidate presenter *)

Record QuickPickItem : Type := {
  label : string;
  description : string;
  detail : string
}.

(** [set.size === 1 ? Array.from(set)[0] : undefined] *)
Definition only_element (s : StringSet) : option string :=
  if Set_size s =? 1 then nth_error s 0 else None.

(** [resolved && latest ? `${resolved} -> ${latest}` : "multiple versions"] *)
Definition describe (resolved latest : option string) : string :=
  match resolved, latest with
  | Some r, Some l =>
      if JS.truthy r && JS.truthy l then r ++ " -> " ++ l else "multiple versions"
  | _, _ => "multiple versions"
  end.

(** Lines 219-231: the item shown for one candidate. *)
Definition present (pkg : OutdatedPackage) : QuickPickItem :=
  let resolved := only_element (resolvedVersions pkg) in
  let latest := only_element (latestVersions pkg) in
  {| label := id pkg;
     description := describe resolved latest;
     detail := JS.join "; " (contexts pkg) |}.

(** The description policy in the specification's words. *)
Definition description_policy (pkg : OutdatedPackage) : string :=
  match resolvedVersions pkg, latestVersions pkg with
  | [only_resolved], [only_latest] => only_resolved ++ " -> " ++ only_latest
  | _, _ => "multiple versions"
  end.

(** ** Upgrade orchestrator *)

(** [CommandResult], lines 4-8. *)
Record CommandResult : Type := {
  code : Z;
  stdout : string;
  stderr : string
}.

(** How a child process ends: it could not be started (the [error]
    event), or it closed with an exit status, which may be [null]. *)
Inductive ProcessEnd : Type :=
| StartFailed (reason : string)
| Closed (status : option Z).

(** What a child process did: the text of its two streams and its end. *)
Record Child : Type := {
  child_stdout : string;
  child_stderr : string;
  child_end : ProcessEnd
}.

(** The command handler as a tree of calls to the editor and to the
    operating system.  There is one output channel per run, so the
    calls on it do not name it.  [Spawn] stands for [spawn] together
    with the stream listeners: a stream is copied to the output channel
    as it arrives when its echo flag is set. *)
Inductive Prog (A : Type) : Type :=
| Return (a : A)
| CreateOutputChannel (name : string) (k : Prog A)
| OutputShow (preserveFocus : bool) (k : Prog A)
| AppendLine (line : string) (k : Prog A)
| Spawn (cwd command : string) (args : list string)
        (echoStdout echoStderr : bool) (k : Child -> Prog A)
| ShowErrorMessage (text : string) (k : Prog A)
| ShowInformationMessage (text : string) (k : Prog A)
| ShowQuickPick (items : list QuickPickItem) (placeHolder : string)
                (k : option (list QuickPickItem) -> Prog A).

Arguments Return {A} a.
Arguments CreateOutputChannel {A} name k.
Arguments OutputShow {A} preserveFocus k.
Arguments AppendLine {A} line k.
Arguments Spawn {A} cwd command args echoStdout echoStderr k.
Arguments ShowErrorMessage {A} text k.
Arguments ShowInformationMessage {A} text k.
Arguments ShowQuickPick {A} items placeHolder k.

(** [await p] followed by the rest of the function. *)
Fixpoint await {A B : Type} (p : Prog A) (rest : A -> Prog B) : Prog B :=
  match p with
  | Return a => rest a
  | CreateOutputChannel name k => CreateOutputChannel name (await k rest)
  | OutputShow f k => OutputShow f (await k rest)
  | AppendLine line k => AppendLine line (await k rest)
  | Spawn cwd command args eo ee k =>
      Spawn cwd command args eo ee (fun child => await (k child) rest)
  | ShowErrorMessage text k => ShowErrorMessage text (await k rest)
  | ShowInformationMessage text k => ShowInformationMessage text (await k rest)
  | ShowQuickPick items ph k =>
      ShowQuickPick items ph (fun picked => await (k picked) rest)
  end.

Notation "'const' x ':=' 'await' p 'in' k" := (await p (fun x => k))
  (at level 10, x name, p at level 200, k at level 200).

(** One log line per issued call, lines 17 and 45. *)
Definition command_line (command : string) (args : list string) : string :=
  "> " ++ command ++ " " ++ JS.join " " args.

(** [code ?? 1] *)
Definition exit_status (e : ProcessEnd) : Z :=
  match e with
  | StartFailed _ => 1
  | Closed (Some status) => status
  | Closed None => 1
  end.

(** [runCommand], lines 10-35. *)
Definition runCommand (cwd command : string) (args : list string) : Prog Z :=
  AppendLine (command_line command args)
    (Spawn cwd command args true true (fun child =>
       match child_end child with
       | StartFailed reason =>
           AppendLine ("Command failed to start: " ++ reason) (Return 1)
       | Closed status => Return (exit_status (Closed status))
       end)).

(** [runCommandCapture], lines 37-77.  [options?.echoStdout !== false]
    is [true] unless the option is given as [false]. *)
Definition runCommandCapture (cwd command : string) (args : list string)
    (echoStdout echoStderr : option bool) : Prog CommandResult :=
  let echo (o : option bool) := match o with Some false => false | _ => true end in
  AppendLine (command_line command args)
    (Spawn cwd command args (echo echoStdout) (echo echoStderr) (fun child =>
       let result := {| code := exit_status (child_end child);
                        stdout := child_stdout child;
                        stderr := child_stderr child |} in
       match child_end child with
       | StartFailed reason =>
           AppendLine ("Command failed to start: " ++ reason) (Return result)
       | Closed _ => Return result
       end)).

(** [ensureDotnetOutdated], lines 143-158. *)
Definition ensureDotnetOutdated (cwd : string) : Prog bool :=
  const probeCode := await runCommand cwd "dotnet" ["outdated"; "--version"] in
  if probeCode =? 0 then Return true
  else
    AppendLine "dotnet-outdated-tool not found. Installing globally..."
      (const installCode := await
         runCommand cwd "dotnet" ["tool"; "install"; "--global"; "dotnet-outdated-tool"] in
       Return (installCode =? 0)).

Definition no_json_message : string :=
  "No JSON output received from dotnet list package --outdated.".

Definition nothing_selected_message : string :=
  "No packages selected for upgrade.".

(** Lines 249-252: two arguments per selection, in selection order. *)
Definition upgrade_args (selections : list QuickPickItem) : list string :=
  fold_left (fun args selection => args ++ ["--include"; label selection])
            selections ["outdated"; "--upgrade"].

(** Lines 243-260: what follows a non-empty selection. *)
Definition upgrade_selected (cwd : string) (selections : list QuickPickItem)
  : Prog unit :=
  const toolOk := await ensureDotnetOutdated cwd in
  if negb toolOk then
    ShowErrorMessage "Failed to install dotnet-outdated-tool. See output for details."
      (Return tt)
  else
    const upgradeCode := await runCommand cwd "dotnet" (upgrade_args selections) in
    if negb (upgradeCode =? 0) then
      ShowErrorMessage "dotnet outdated --upgrade failed. See output for details."
        (Return tt)
    else ShowInformationMessage "NuGet packages updated." (Return tt).

(** Lines 238-260: what follows the answer of the picker.  A cancelled
    picker answers [undefined]. *)
Definition after_selection (cwd : string) (selections : option (list QuickPickItem))
  : Prog unit :=
  match selections with
  | None | Some [] => ShowInformationMessage nothing_selected_message (Return tt)
  | Some picked => upgrade_selected cwd picked
  end.

(** Lines 214-260: what follows a successful normalisation. *)
Definition with_candidates (cwd : string) (outdatedPackages : list OutdatedPackage)
  : Prog unit :=
  match outdatedPackages with
  | [] => ShowInformationMessage "No outdated packages found." (Return tt)
  | _ =>
      ShowQuickPick (map present outdatedPackages) "Select packages to upgrade"
        (after_selection cwd)
  end.

(** Lines 203-260: the payload handed to normalisation, and what
    follows.  Every value thrown is an [Error], so the reported message
    is its [message]. *)
Definition with_payload (cwd jsonPayload : string) : Prog unit :=
  match parseOutdatedPackages jsonPayload with
  | inl err =>
      AppendLine "Failed to parse JSON. Raw output:"
        (AppendLine jsonPayload
           (ShowErrorMessage
              ("Failed to parse outdated package list: " ++ message err)
              (Return tt)))
  | inr outdatedPackages => with_candidates cwd outdatedPackages
  end.

(** Lines 194-196. *)
Definition select_payload (outdatedResult : CommandResult) : string :=
  if JS.length (JS.trim (stdout outdatedResult)) =? 0
  then stderr outdatedResult
  else stdout outdatedResult.

(** Lines 187-260: what follows the outdated-check call. *)
Definition with_outdated (cwd : string) (outdatedResult : CommandResult) : Prog unit :=
  if negb (code outdatedResult =? 0) then
    ShowErrorMessage
      "dotnet list package --outdated --format json failed. Update your .NET SDK or see output for details."
      (Return tt)
  else
    let jsonPayload := select_payload outdatedResult in
    if negb (JS.truthy (JS.trim jsonPayload)) then
      ShowErrorMessage no_json_message (Return tt)
    else with_payload cwd jsonPayload.

(** The handler of the command [dotnetNugetUpdate.run], lines 161-261.
    [folder] is the path of the first workspace folder, if there is one. *)
Definition run (folder : option string) : Prog unit :=
  match folder with
  | None =>
      ShowErrorMessage "Open a workspace folder to run NuGet Package Upgrade."
        (Return tt)
  | Some cwd =>
      CreateOutputChannel "NuGet Package Upgrade"
        (OutputShow true
           (ShowInformationMessage "Running NuGet package checks..."
              (const listCode := await runCommand cwd "dotnet" ["list"; "package"] in
               if negb (listCode =? 0) then
                 ShowErrorMessage "dotnet list package failed. See output for details."
                   (Return tt)
               else
                 const outdatedResult := await
                   runCommandCapture cwd "dotnet"
                     ["list"; "package"; "--outdated"; "--format"; "json"]
                     (Some false) (Some false) in
                 with_outdated cwd outdatedResult)))
  end.

(** ** Runs of the handler *)

(** What an observer of one run sees: each call with its answer. *)
Inductive Event : Type :=
| OutputChannelCreated (name : string)
| Shown (preserveFocus : bool)
| LineAppended (line : string)
| Spawned (cwd command : string) (args : list string)
          (echoStdout echoStderr : bool) (child : Child)
| ErrorShown (text : string)
| InformationShown (text : string)
| Picked (items : list QuickPickItem) (placeHolder : string)
         (answer : option (list QuickPickItem)).

(** [runs p trace a]: [p] can run to the result [a] and shows [trace]. *)
Inductive runs {A : Type} : Prog A -> list Event -> A -> Prop :=
| runs_Return a : runs (Return a) [] a
| runs_CreateOutputChannel name k t a :
    runs k t a -> runs (CreateOutputChannel name k) (OutputChannelCreated name :: t) a
| runs_OutputShow f k t a :
    runs k t a -> runs (OutputShow f k) (Shown f :: t) a
| runs_AppendLine line k t a :
    runs k t a -> runs (AppendLine line k) (LineAppended line :: t) a
| runs_Spawn cwd command args eo ee k child t a :
    runs (k child) t a ->
    runs (Spawn cwd command args eo ee k) (Spawned cwd command args eo ee child :: t) a
| runs_ShowErrorMessage text k t a :
    runs k t a -> runs (ShowErrorMessage text k) (ErrorShown text :: t) a
| runs_ShowInformationMessage text k t a :
    runs k t a -> runs (ShowInformationMessage text k) (InformationShown text :: t) a
| runs_ShowQuickPick items ph k answer t a :
    runs (k answer) t a ->
    runs (ShowQuickPick items ph k) (Picked items ph answer :: t) a.

(** A captured stream is blank when trimming leaves nothing of it. *)
Definition blank (s : string) : Prop := JS.trim s = "".

(** The calls that probe for, install or run the upgrade tool. *)
Definition is_tool_call (e : Event) : bool :=
  match e with
  | Spawned _ _ ("outdated" :: _) _ _ _ => true
  | Spawned _ _ ("tool" :: _) _ _ _ => true
  | _ => false
  end.

(** A child that prints nothing and exits with status 0. *)
Definition quiet_child : Child :=
  {| child_stdout := ""; child_stderr := ""; child_end := Closed (Some 0) |}.

(** The child of the outdated-check call that prints the sample output,
    and one that prints it on its error stream only. *)
Definition outdated_child : Child :=
  {| child_stdout := sample_output; child_stderr := ""; child_end := Closed (Some 0) |}.

Definition outdated_result_on_stderr : CommandResult :=
  {| code := 0; stdout := "  "; stderr := sample_output |}.

(** One run, against a script of answers: the children answer the calls
    of [spawn] in turn, the picks answer the picker.  When a script is
    used up, a child is quiet and the picker is cancelled. *)
Fixpoint execute {A : Type} (p : Prog A) (children : list Child)
    (picks : list (option (list QuickPickItem))) : list Event * A :=
  match p with
  | Return a => ([], a)
  | CreateOutputChannel name k =>
      let (t, a) := execute k children picks in (OutputChannelCreated name :: t, a)
  | OutputShow f k =>
      let (t, a) := execute k children picks in (Shown f :: t, a)
  | AppendLine line k =>
      let (t, a) := execute k children picks in (LineAppended line :: t, a)
  | Spawn cwd command args eo ee k =>
      let child := hd quiet_child children in
      let (t, a) := execute (k child) (tl children) picks in
      (Spawned cwd command args eo ee child :: t, a)
  | ShowErrorMessage text k =>
      let (t, a) := execute k children picks in (ErrorShown text :: t, a)
  | ShowInformationMessage text k =>
      let (t, a) := execute k children picks in (InformationShown text :: t, a)
  | ShowQuickPick items ph k =>
      let answer := hd None picks in
      let (t, a) := execute (k answer) children (tl picks) in
      (Picked items ph answer :: t, a)
  end.

(** What a scripted run of the handler shows. *)
Definition scripted_trace (folder : option string) (children : list Child)
    (picks : list (option (list QuickPickItem))) : list Event :=
  fst (execute (run folder) children picks).

(** ** Vocabulary for the further properties *)

(** A package has a usable id when [pkg?.id ?? pkg?.name] is a
    non-empty string. *)
Definition usable_id (pkg : value) : Prop :=
  exists name, coalesce (get pkg "id") (get pkg "name") = Some (JString name) /\
               name <> "".

(** [pkg] is a package of the document, under [framework] of [project]. *)
Definition package_of (data project framework pkg : value) : Prop :=
  In project (array_or_empty (get data "projects")) /\
  In framework (array_or_empty (get project "frameworks")) /\
  In pkg (array_or_empty (get framework "topLevelPackages")).

(** What one call of [runCommand] or [runCommandCapture] shows: the log
    line, the child, and a second line when the child could not start. *)
Definition command_events (cwd command : string) (args : list string)
    (echoStdout echoStderr : bool) (child : Child) : list Event :=
  LineAppended (command_line command args)
  :: Spawned cwd command args echoStdout echoStderr child
  :: match child_end child with
     | StartFailed reason => [LineAppended ("Command failed to start: " ++ reason)]
     | Closed _ => []
     end.

(** The calls of a run: the arguments and the exit status of each child,
    in the order of the calls. *)
Fixpoint calls (t : list Event) : list (list string * Z) :=
  match t with
  | [] => []
  | Spawned _ _ args _ _ child :: rest =>
      (args, exit_status (child_end child)) :: calls rest
  | _ :: rest => calls rest
  end.

(** The argument lists of the four fixed calls. *)
Definition list_args : list string := ["list"; "package"].
Definition outdated_args : list string :=
  ["list"; "package"; "--outdated"; "--format"; "json"].
Definition probe_args : list string := ["outdated"; "--version"].
Definition install_args : list string :=
  ["tool"; "install"; "--global"; "dotnet-outdated-tool"].

(** A notification: an error or an information message. *)
Definition is_notification (e : Event) : bool :=
  match e with
  | ErrorShown _ | InformationShown _ => true
  | _ => false
  end.

Definition is_error (e : Event) : bool :=
  match e with
  | ErrorShown _ => true
  | _ => false
  end.

(** Induction on a parsed value through the elements of its arrays. *)
Fixpoint json_array_ind (P : value -> Prop)
    (Hnull : P JNull) (Hbool : forall b, P (JBool b))
    (Hnumber : forall n, P (JNumber n)) (Hstring : forall s, P (JString s))
    (Harray : forall items, Forall P items -> P (JArray items))
    (Hobject : forall fields, P (JObject fields))
    (v : value) : P v :=
  match v with
  | JNull => Hnull
  | JBool b => Hbool b
  | JNumber n => Hnumber n
  | JString s => Hstring s
  | JArray items =>
      Harray items
        ((fix all (l : list value) : Forall P l :=
            match l with
            | [] => Forall_nil P
            | x :: rest =>
                Forall_cons x
                  (json_array_ind P Hnull Hbool Hnumber Hstring Harray Hobject x)
                  (all rest)
            end) items)
  | JObject fields => Hobject fields
  end.

(** ** The shapes of a run *)

(** What every run in a workspace starts with. *)
Definition prelude : list Event :=
  [OutputChannelCreated "NuGet Package Upgrade";
   Shown true;
   InformationShown "Running NuGet package checks..."].

(** The result [runCommandCapture] gives for a child. *)
Definition captured (child : Child) : CommandResult :=
  {| code := exit_status (child_end child);
     stdout := child_stdout child;
     stderr := child_stderr child |}.

(** [options?.echoStdout !== false] *)
Definition echoes (option : option bool) : bool :=
  match option with Some false => false | _ => true end.

(** The runs of [ensureDotnetOutdated], with their results. *)
Inductive ensure_trace (cwd : string) : bool -> list Event -> Prop :=
| tool_present probe :
    exit_status (child_end probe) = 0 ->
    ensure_trace cwd true (command_events cwd "dotnet" probe_args true true probe)
| tool_installed probe install :
    exit_status (child_end probe) <> 0 ->
    ensure_trace cwd (exit_status (child_end install) =? 0)
      (command_events cwd "dotnet" probe_args true true probe
       ++ LineAppended "dotnet-outdated-tool not found. Installing globally..."
       :: command_events cwd "dotnet" install_args true true install).

(** The runs that follow a non-empty selection, lines 243-260. *)
Inductive upgrade_trace (cwd : string) (selections : list QuickPickItem)
  : list Event -> Prop :=
| tool_missing t :
    ensure_trace cwd false t ->
    upgrade_trace cwd selections
      (t ++ [ErrorShown "Failed to install dotnet-outdated-tool. See output for details."])
| upgrade_failed t upgrade :
    ensure_trace cwd true t ->
    exit_status (child_end upgrade) <> 0 ->
    upgrade_trace cwd selections
      (t ++ command_events cwd "dotnet" (upgrade_args selections) true true upgrade
         ++ [ErrorShown "dotnet outdated --upgrade failed. See output for details."])
| upgraded t upgrade :
    ensure_trace cwd true t ->
    exit_status (child_end upgrade) = 0 ->
    upgrade_trace cwd selections
      (t ++ command_events cwd "dotnet" (upgrade_args selections) true true upgrade
         ++ [InformationShown "NuGet packages updated."]).

(** The runs that follow a payload, lines 203-260. *)
Inductive payload_trace (cwd jsonPayload : string) : list Event -> Prop :=
| parse_failed err :
    parseOutdatedPackages jsonPayload = inl err ->
    payload_trace cwd jsonPayload
      [LineAppended "Failed to parse JSON. Raw output:";
       LineAppended jsonPayload;
       ErrorShown ("Failed to parse outdated package list: " ++ message err)]
| nothing_outdated :
    parseOutdatedPackages jsonPayload = inr [] ->
    payload_trace cwd jsonPayload [InformationShown "No outdated packages found."]
| nothing_selected pkgs answer :
    parseOutdatedPackages jsonPayload = inr pkgs -> pkgs <> [] ->
    answer = None \/ answer = Some [] ->
    payload_trace cwd jsonPayload
      [Picked (map present pkgs) "Select packages to upgrade" answer;
       InformationShown nothing_selected_message]
| selected pkgs selections t :
    parseOutdatedPackages jsonPayload = inr pkgs -> pkgs <> [] ->
    selections <> [] ->
    upgrade_trace cwd selections t ->
    payload_trace cwd jsonPayload
      (Picked (map present pkgs) "Select packages to upgrade" (Some selections) :: t).

(** The runs of the command handler, lines 161-261. *)
Inductive run_trace : option string -> list Event -> Prop :=
| no_workspace :
    run_trace None
      [ErrorShown "Open a workspace folder to run NuGet Package Upgrade."]
| list_failed cwd listing :
    exit_status (child_end listing) <> 0 ->
    run_trace (Some cwd)
      (prelude ++ command_events cwd "dotnet" list_args true true listing
       ++ [ErrorShown "dotnet list package failed. See output for details."])
| outdated_failed cwd listing outdated :
    exit_status (child_end listing) = 0 ->
    exit_status (child_end outdated) <> 0 ->
    run_trace (Some cwd)
      (prelude ++ command_events cwd "dotnet" list_args true true listing
       ++ command_events cwd "dotnet" outdated_args false false outdated
       ++ [ErrorShown
             "dotnet list package --outdated --format json failed. Update your .NET SDK or see output for details."])
| no_payload cwd listing outdated :
    exit_status (child_end listing) = 0 ->
    exit_status (child_end outdated) = 0 ->
    blank (select_payload (captured outdated)) ->
    run_trace (Some cwd)
      (prelude ++ command_events cwd "dotnet" list_args true true listing
       ++ command_events cwd "dotnet" outdated_args false false outdated
       ++ [ErrorShown no_json_message])
| payload_received cwd listing outdated t :
    exit_status (child_end listing) = 0 ->
    exit_status (child_end outdated) = 0 ->
    ~ blank (select_payload (captured outdated)) ->
    payload_trace cwd (select_payload (captured outdated)) t ->
    run_trace (Some cwd)
      (prelude ++ command_events cwd "dotnet" list_args true true listing
       ++ command_events cwd "dotnet" outdated_args false false outdated
       ++ t).

(** The sequences of calls a run can make, with the exit status of
    each: a call follows only a call that exited with 0, but for the
    installation, which follows only a probe that did not. *)
Inductive call_sequence : list (list string * Z) -> Prop :=
| calls_none : call_sequence []
| calls_list c :
    c <> 0 -> call_sequence [(list_args, c)]
| calls_outdated c :
    call_sequence [(list_args, 0); (outdated_args, c)]
| calls_upgrade selections c :
    selections <> [] ->
    call_sequence [(list_args, 0); (outdated_args, 0); (probe_args, 0);
                   (upgrade_args selections, c)]
| calls_install p i :
    p <> 0 -> i <> 0 ->
    call_sequence [(list_args, 0); (outdated_args, 0); (probe_args, p);
                   (install_args, i)]
| calls_install_upgrade selections p c :
    selections <> [] -> p <> 0 ->
    call_sequence [(list_args, 0); (outdated_args, 0); (probe_args, p);
                   (install_args, 0); (upgrade_args selections, c)].

(** A call of the run in [cwd]: the program is [dotnet], and the two
    streams are echoed unless the call is the outdated check. *)
Definition spawn_ok (cwd : string) (e : Event) : Prop :=
  match e with
  | Spawned dir command args echoStdout echoStderr _ =>
      dir = cwd /\ command = "dotnet" /\
      echoStdout = echoStderr /\
      (echoStdout = false <-> args = outdated_args)
  | _ => True
  end.

(** A trace ends with a notification and shows no error before it. *)
Definition ends_with_notification (t : list Event) : Prop :=
  exists before e,
    t = before ++ [e] /\ is_notification e = true /\
    Forall (fun x => is_error x = false) before.

(** The report of a successful upgrade. *)
Definition updated_message : string := "NuGet packages updated.".

(** A call of the upgrade: its arguments start with [outdated --upgrade]. *)
Definition upgrade_call (includes : list string) (status : Z) : list string * Z :=
  ("outdated" :: "--upgrade" :: includes, status).

(** No call starts a trace that begins with another kind of event. *)
Definition starts_with_spawn (t : list Event) : Prop :=
  match t with
  | Spawned _ _ _ _ _ _ :: _ => True
  | _ => False
  end.

(** Every call of the trace comes right after the log line that echoes
    its program and arguments. *)
Definition logged (t : list Event) : Prop :=
  forall before cwd command args eo ee child after,
    t = before ++ Spawned cwd command args eo ee child :: after ->
    exists earlier, before = earlier ++ [LineAppended (command_line command args)].

(** ** Further samples *)

(** A package whose id is the empty string and whose name would do. *)
Definition package_with_empty_id : json Z :=
  JObject [("id", JString ""); ("name", JString "Foo")].

(** A document whose project name is an object with an own [toString]. *)
Definition doc_unprintable_name : json Z :=
  sample_document
    [JObject [("name", JObject [("toString", JNumber 1)]);
              ("frameworks",
               JArray [sample_framework "net8.0"
                         [sample_package "Foo" "1.0" "2.0"]])]].

(** The entries of [doc_two_frameworks], in traversal order. *)
Definition entry_Foo_net6 : Entry :=
  {| entry_id := "Foo"; entry_resolved := Some "13.0.1";
     entry_latest := Some "13.0.3"; entry_context := "App (net6.0)" |}.

Definition entry_Foo_net8 : Entry :=
  {| entry_id := "Foo"; entry_resolved := Some "13.0.5";
     entry_latest := Some "13.0.3"; entry_context := "App (net8.0)" |}.

Definition entry_Bar_net8 : Entry :=
  {| entry_id := "Bar"; entry_resolved := Some "1.0";
     entry_latest := Some "2.0"; entry_context := "App (net8.0)" |}.

(** The child of an outdated check that prints no document. *)
Definition garbage_child : Child :=
  {| child_stdout := "{oops}"; child_stderr := ""; child_end := Closed (Some 0) |}.

(** A script in which every call succeeds and one item is selected, and
    a script in which the payload does not parse. *)
Definition upgrade_script : list Child :=
  [quiet_child; outdated_child; quiet_child; quiet_child].

Definition upgrade_picks : list (option (list QuickPickItem)) :=
  [Some [present candidate_Foo]].

Definition garbage_script : list Child := [quiet_child; garbage_child].

(* ================================================================== *)
(** * Properties of the payload extractor *)

Lemma get_none_length (s : string) (i : nat) :
  String.get i s = None <-> (String.length s <= i)%nat.
Proof.
  revert i; induction s as [|a s IH]; intros [|i]; simpl; split; intros H;
    try lia; try reflexivity; try discriminate.
  - apply IH in H; lia.
  - apply IH; lia.
Qed.

Lemma indexOf_range (s : string) (c : ascii) :
  -1 <= JS.indexOf s c < JS.length s.
Proof.
  unfold JS.length; induction s as [|a s IH]; simpl; [lia|].
  destruct (Ascii.eqb a c); [lia|].
  destruct (JS.indexOf s c =? -1) eqn:E; lia.
Qed.

Lemma lastIndexOf_range (s : string) (c : ascii) :
  -1 <= JS.lastIndexOf s c < JS.length s.
Proof.
  unfold JS.length; induction s as [|a s IH]; simpl; [lia|].
  destruct (JS.lastIndexOf s c =? -1) eqn:E; [|lia].
  destruct (Ascii.eqb a c); lia.
Qed.

Lemma indexOf_absent (s : string) (c : ascii) :
  JS.indexOf s c = -1 <-> ~ occurs c s.
Proof.
  unfold occurs; induction s as [|a s IH]; simpl.
  - split; [intros _ [i H]; destruct i; discriminate | reflexivity].
  - destruct (Ascii.eqb_spec a c) as [->|Hne].
    + split; [discriminate | intros H; exfalso; apply H; exists 0%nat; reflexivity].
    + pose proof (indexOf_range s c) as R.
      destruct (JS.indexOf s c =? -1) eqn:E.
      * apply Z.eqb_eq in E. split; [|reflexivity].
        intros _ [[|i] H]; simpl in H; [congruence|].
        apply IH in E; apply E; eauto.
      * apply Z.eqb_neq in E. split; [lia|].
        intros H; exfalso; apply E, IH; intros [i Hi]; apply H; exists (S i); exact Hi.
Qed.

Lemma indexOf_first (s : string) (c : ascii) :
  0 <= JS.indexOf s c -> first_at c s (Z.to_nat (JS.indexOf s c)).
Proof.
  unfold first_at; induction s as [|a s IH]; simpl; [lia|].
  destruct (Ascii.eqb_spec a c) as [->|Hne].
  - intros _; split; [reflexivity | intros k Hk; simpl in Hk; lia].
  - destruct (JS.indexOf s c =? -1) eqn:E; [lia|].
    apply Z.eqb_neq in E; pose proof (indexOf_range s c) as R; intros _.
    destruct IH as [Hg Hm]; [lia|].
    replace (Z.to_nat (JS.indexOf s c + 1)) with (S (Z.to_nat (JS.indexOf s c))) by lia.
    split; [exact Hg|].
    intros [|k] Hk; simpl; [congruence | apply Hm; lia].
Qed.

Lemma lastIndexOf_absent (s : string) (c : ascii) :
  JS.lastIndexOf s c = -1 <-> ~ occurs c s.
Proof.
  unfold occurs; induction s as [|a s IH]; simpl.
  - split; [intros _ [i H]; destruct i; discriminate | reflexivity].
  - pose proof (lastIndexOf_range s c) as R.
    destruct (JS.lastIndexOf s c =? -1) eqn:E.
    + apply Z.eqb_eq in E.
      destruct (Ascii.eqb_spec a c) as [->|Hne].
      * split; [discriminate | intros H; exfalso; apply H; exists 0%nat; reflexivity].
      * split; [|reflexivity].
        intros _ [[|i] H]; simpl in H; [congruence|].
        apply IH in E; apply E; eauto.
    + apply Z.eqb_neq in E. split; [lia|].
      intros H; exfalso; apply E, IH; intros [i Hi]; apply H; exists (S i); exact Hi.
Qed.

Lemma lastIndexOf_last (s : string) (c : ascii) :
  0 <= JS.lastIndexOf s c -> last_at c s (Z.to_nat (JS.lastIndexOf s c)).
Proof.
  unfold last_at; induction s as [|a s IH]; simpl; [lia|].
  pose proof (lastIndexOf_range s c) as R.
  destruct (JS.lastIndexOf s c =? -1) eqn:E.
  - apply Z.eqb_eq in E.
    destruct (Ascii.eqb_spec a c) as [->|Hne]; [|lia].
    intros _; split; [reflexivity|].
    intros [|k] Hk; [lia|]; simpl.
    apply lastIndexOf_absent in E; intros H; apply E; exists k; exact H.
  - apply Z.eqb_neq in E; intros _.
    destruct IH as [Hg Hm]; [lia|].
    replace (Z.to_nat (JS.lastIndexOf s c + 1))
      with (S (Z.to_nat (JS.lastIndexOf s c))) by lia.
    split; [exact Hg|].
    intros [|k] Hk; [lia|]; simpl; apply Hm; lia.
Qed.

Lemma first_at_unique (c : ascii) (s : string) (i j : nat) :
  first_at c s i -> first_at c s j -> i = j.
Proof.
  intros [Hi Mi] [Hj Mj].
  destruct (Nat.lt_trichotomy i j) as [H|[H|H]]; [|exact H|].
  - exfalso; exact (Mj i H Hi).
  - exfalso; exact (Mi j H Hj).
Qed.

Lemma last_at_unique (c : ascii) (s : string) (i j : nat) :
  last_at c s i -> last_at c s j -> i = j.
Proof.
  intros [Hi Mi] [Hj Mj].
  destruct (Nat.lt_trichotomy i j) as [H|[H|H]]; [|exact H|].
  - exfalso; exact (Mi j H Hj).
  - exfalso; exact (Mj i H Hi).
Qed.

(** [indexOf] is the position of the first occurrence. *)
Lemma indexOf_first_at (c : ascii) (s : string) (i : nat) :
  first_at c s i -> JS.indexOf s c = Z.of_nat i.
Proof.
  intros H.
  assert (Hocc : occurs c s) by (exists i; apply H).
  pose proof (indexOf_range s c) as R.
  destruct (Z.eq_dec (JS.indexOf s c) (-1)) as [E|E].
  - apply indexOf_absent in E; contradiction.
  - pose proof (indexOf_first s c ltac:(lia)) as F.
    rewrite (first_at_unique _ _ _ _ H F); lia.
Qed.

(** [lastIndexOf] is the position of the last occurrence. *)
Lemma lastIndexOf_last_at (c : ascii) (s : string) (i : nat) :
  last_at c s i -> JS.lastIndexOf s c = Z.of_nat i.
Proof.
  intros H.
  assert (Hocc : occurs c s) by (exists i; apply H).
  pose proof (lastIndexOf_range s c) as R.
  destruct (Z.eq_dec (JS.lastIndexOf s c) (-1)) as [E|E].
  - apply lastIndexOf_absent in E; contradiction.
  - pose proof (lastIndexOf_last s c ltac:(lia)) as F.
    rewrite (last_at_unique _ _ _ _ H F); lia.
Qed.

Lemma get_some_length (s : string) (i : nat) (c : ascii) :
  String.get i s = Some c -> (i < String.length s)%nat.
Proof.
  intros H. destruct (Nat.lt_ge_cases i (String.length s)) as [L|L]; [exact L|].
  apply get_none_length in L; congruence.
Qed.

(** [slice] between two positions of the string is a [substring]. *)
Lemma slice_inside (s : string) (i j : nat) :
  (i <= j <= String.length s)%nat ->
  JS.slice s (Z.of_nat i) (Z.of_nat j) = substring i (j - i) s.
Proof.
  intros H; unfold JS.slice, JS.length.
  destruct (Z.ltb_spec (Z.of_nat i) 0); [lia|].
  destruct (Z.ltb_spec (Z.of_nat j) 0); [lia|].
  f_equal; lia.
Qed.

Lemma substring_length (s : string) (n m : nat) :
  (n + m <= String.length s)%nat -> String.length (substring n m s) = m.
Proof.
  revert n m; induction s as [|a s IH]; intros [|n] [|m]; simpl; intros H;
    try lia; try reflexivity.
  - f_equal; apply (IH 0%nat m); lia.
  - apply (IH n 0%nat); lia.
  - apply (IH n (S m)); simpl; lia.
Qed.

Lemma substring_whole (s : string) : substring 0 (String.length s) s = s.
Proof. induction s as [|a s IH]; simpl; [reflexivity | now rewrite IH]. Qed.

(** The two branches of [extractJsonPayload], by the positions of the
    braces. *)
Lemma extract_unchanged (text : string) :
  JS.indexOf text open_brace = -1 \/
  JS.lastIndexOf text close_brace = -1 \/
  JS.lastIndexOf text close_brace <= JS.indexOf text open_brace ->
  extractJsonPayload text = text.
Proof.
  intros H; unfold extractJsonPayload.
  destruct (Z.eqb_spec (JS.indexOf text open_brace) (-1)); [reflexivity|].
  destruct (Z.eqb_spec (JS.lastIndexOf text close_brace) (-1)); [reflexivity|].
  destruct (Z.leb_spec (JS.lastIndexOf text close_brace) (JS.indexOf text open_brace));
    [reflexivity | lia].
Qed.

Lemma extract_between (text : string) (i j : nat) :
  first_at open_brace text i -> last_at close_brace text j -> (i < j)%nat ->
  extractJsonPayload text = substring i (j - i + 1) text.
Proof.
  intros Hf Hl Hij; unfold extractJsonPayload.
  rewrite (indexOf_first_at _ _ _ Hf), (lastIndexOf_last_at _ _ _ Hl).
  destruct (Z.eqb_spec (Z.of_nat i) (-1)); [lia|].
  destruct (Z.eqb_spec (Z.of_nat j) (-1)); [lia|].
  destruct (Z.leb_spec (Z.of_nat j) (Z.of_nat i)); [lia|]; simpl.
  pose proof (get_some_length _ _ _ (proj1 Hl)) as Lj.
  replace (Z.of_nat j + 1) with (Z.of_nat (j + 1)) by lia.
  rewrite slice_inside by lia. f_equal; lia.
Qed.

(** C9.  Extraction returns its input unchanged when the input has no
    opening brace, or no closing brace, or when the last closing brace
    does not come strictly after the first opening brace; otherwise it
    returns the substring from the first opening brace to the last
    closing brace, both included. *)
Theorem extractJsonPayload_spec (text : string) :
  (~ occurs open_brace text \/ ~ occurs close_brace text ->
   extractJsonPayload text = text) /\
  (forall i j : nat,
     first_at open_brace text i -> last_at close_brace text j -> (j <= i)%nat ->
     extractJsonPayload text = text) /\
  (forall i j : nat,
     first_at open_brace text i -> last_at close_brace text j -> (i < j)%nat ->
     extractJsonPayload text = substring i (j - i + 1) text).
Proof.
  split; [|split].
  - intros [H|H]; apply extract_unchanged.
    + left; apply indexOf_absent; exact H.
    + right; left; apply lastIndexOf_absent; exact H.
  - intros i j Hf Hl Hij; apply extract_unchanged; right; right.
    rewrite (indexOf_first_at _ _ _ Hf), (lastIndexOf_last_at _ _ _ Hl); lia.
  - apply extract_between.
Qed.

(** A payload with noise on both sides, a text whose only closing
    brace comes before its only opening brace, and a blank text. *)
Lemma extractJsonPayload_spec_witness :
  extractJsonPayload "info: {a:{}} done" = "{a:{}}" /\
  extractJsonPayload "} and {" = "} and {" /\
  extractJsonPayload "   " = "   ".
Proof.
  split; [|split].
  - rewrite (proj2 (proj2 (extractJsonPayload_spec "info: {a:{}} done")) 6%nat 11%nat).
    + reflexivity.
    + split; [reflexivity|]. intros k Hk.
      do 6 (destruct k as [|k]; [discriminate|]); lia.
    + split; [reflexivity|]. intros k Hk.
      do 12 (destruct k as [|k]; [lia|]).
      do 5 (destruct k as [|k]; [discriminate|]). destruct k; discriminate.
    + lia.
  - apply (proj1 (proj2 (extractJsonPayload_spec "} and {")) 6%nat 0%nat).
    + split; [reflexivity|]. intros k Hk.
      do 6 (destruct k as [|k]; [discriminate|]); lia.
    + split; [reflexivity|]. intros k Hk.
      destruct k as [|k]; [lia|].
      do 6 (destruct k as [|k]; [discriminate|]). destruct k; discriminate.
    + lia.
  - apply (proj1 (extractJsonPayload_spec "   ")). left.
    intros [k Hk]. do 3 (destruct k as [|k]; [discriminate|]). destruct k; discriminate.
Defined.

(** C8.  Extraction is idempotent. *)
Theorem extractJsonPayload_idempotent (s : string) :
  extractJsonPayload (extractJsonPayload s) = extractJsonPayload s.
Proof.
  pose proof (indexOf_range s open_brace) as Ri.
  pose proof (lastIndexOf_range s close_brace) as Rl.
  destruct (Z.eq_dec (JS.indexOf s open_brace) (-1)) as [E1|E1];
    [rewrite (extract_unchanged s) by auto; apply extract_unchanged; auto|].
  destruct (Z.eq_dec (JS.lastIndexOf s close_brace) (-1)) as [E2|E2];
    [rewrite (extract_unchanged s) by auto; apply extract_unchanged; auto|].
  destruct (Z_le_gt_dec (JS.lastIndexOf s close_brace) (JS.indexOf s open_brace))
    as [E3|E3];
    [rewrite (extract_unchanged s) by auto; apply extract_unchanged; auto|].
  pose proof (indexOf_first s open_brace ltac:(lia)) as Hf.
  pose proof (lastIndexOf_last s close_brace ltac:(lia)) as Hl.
  set (i := Z.to_nat (JS.indexOf s open_brace)) in *.
  set (j := Z.to_nat (JS.lastIndexOf s close_brace)) in *.
  assert (Hij : (i < j)%nat) by lia.
  rewrite (extract_between s i j Hf Hl Hij).
  pose proof (get_some_length _ _ _ (proj1 Hl)) as Lj.
  set (r := substring i (j - i + 1) s).
  assert (Lr : String.length r = (j - i + 1)%nat)
    by (apply substring_length; lia).
  assert (Hf' : first_at open_brace r 0).
  { split; [|intros k Hk; lia].
    unfold r; rewrite substring_correct1 by lia. exact (proj1 Hf). }
  assert (Hl' : last_at close_brace r (j - i)).
  { split.
    - unfold r; rewrite substring_correct1 by lia.
      replace (j - i + i)%nat with j by lia. exact (proj1 Hl).
    - intros k Hk. unfold r; rewrite substring_correct2 by lia. discriminate. }
  rewrite (extract_between r 0 (j - i) Hf' Hl') by lia.
  replace (j - i - 0 + 1)%nat with (String.length r) by lia.
  apply substring_whole.
Qed.

(* ================================================================== *)
(** * Sets and maps *)

Lemma Set_has_In (s : StringSet) (x : string) : Set_has s x = true <-> In x s.
Proof.
  unfold Set_has; rewrite existsb_exists; split.
  - intros [y [Hy E]]; apply String.eqb_eq in E; subst; exact Hy.
  - intros H; exists x; split; [exact H | apply String.eqb_refl].
Qed.

Lemma Set_add_In (s : StringSet) (x y : string) :
  In y (Set_add s x) <-> In y s \/ y = x.
Proof.
  unfold Set_add; destruct (Set_has s x) eqn:E.
  - apply Set_has_In in E; split; [auto | intros [H | ->]; assumption].
  - rewrite in_app_iff; simpl. split.
    + intros [H|[H|[]]]; [left; exact H | right; symmetry; exact H].
    + intros [H | ->]; [left; exact H | right; left; reflexivity].
Qed.

Lemma Set_add_NoDup (s : StringSet) (x : string) : NoDup s -> NoDup (Set_add s x).
Proof.
  intros H; unfold Set_add; destruct (Set_has s x) eqn:E; [exact H|].
  assert (N : ~ In x s) by (rewrite <- Set_has_In; congruence).
  clear E; induction H as [|a l Ha Hl IH]; simpl.
  - constructor; [intros [] | constructor].
  - constructor.
    + rewrite in_app_iff; simpl; intros [I|[I|[]]]; [contradiction|].
      subst; apply N; left; reflexivity.
    + apply IH; intros I; apply N; right; exact I.
Qed.

Lemma truthy_nonempty (s : string) : JS.truthy s = true <-> s <> "".
Proof. destruct s; simpl; split; congruence. Qed.

Lemma Map_get_keys (m : PackageMap) (k : string) :
  In k (keys m) <-> exists v, Map_get m k = Some v.
Proof.
  induction m as [|[k0 v0] m IH]; simpl.
  - split; [intros [] | intros [v H]; discriminate].
  - destruct (String.eqb_spec k0 k) as [->|Hne].
    + split; eauto.
    + rewrite IH; split; [intros [H|H]; [contradiction | exact H] | auto].
Qed.

Lemma Map_get_None (m : PackageMap) (k : string) :
  Map_get m k = None <-> ~ In k (keys m).
Proof.
  rewrite Map_get_keys; destruct (Map_get m k) as [v|]; split;
    try discriminate; try reflexivity.
  - intros H; exfalso; apply H; eauto.
  - intros _ [v H]; discriminate.
Qed.

Lemma Map_values_In (m : PackageMap) (v : OutdatedPackage) :
  NoDup (keys m) ->
  (In v (Map_values m) <-> exists k, Map_get m k = Some v).
Proof.
  unfold Map_values; induction m as [|[k0 v0] m IH]; simpl; intros N.
  - split; [intros [] | intros [k H]; discriminate].
  - inversion N as [|? ? Hk Hm]; subst. split.
    + intros [->|H].
      * exists k0; now rewrite String.eqb_refl.
      * apply IH in H; [|exact Hm]. destruct H as [k H]; exists k.
        destruct (String.eqb_spec k0 k) as [->|]; [|exact H].
        exfalso; apply Hk, Map_get_keys; eauto.
    + intros [k H]. destruct (String.eqb_spec k0 k) as [->|].
      * left; congruence.
      * right; apply IH; eauto.
Qed.

Lemma Map_set_fresh (m : PackageMap) (k : string) (v : OutdatedPackage) :
  Map_get m k = None -> Map_set m k v = m ++ [(k, v)].
Proof.
  induction m as [|[k0 v0] m IH]; simpl; [reflexivity|].
  destruct (String.eqb k0 k); [discriminate|].
  intros H; now rewrite IH.
Qed.

Lemma Map_mutate_keys (m : PackageMap) (k : string) f :
  keys (Map_mutate m k f) = keys m.
Proof.
  induction m as [|[k0 v0] m IH]; simpl; [reflexivity|].
  destruct (String.eqb k0 k); simpl; [reflexivity | now rewrite IH].
Qed.

Lemma Map_mutate_get (m : PackageMap) (k k' : string) f :
  Map_get (Map_mutate m k f) k' =
  if String.eqb k k' then option_map f (Map_get m k) else Map_get m k'.
Proof.
  induction m as [|[k0 v0] m IH]; simpl.
  - now destruct (String.eqb k k').
  - destruct (String.eqb_spec k0 k) as [->|Hne]; simpl.
    + destruct (String.eqb_spec k k') as [->|]; reflexivity.
    + rewrite IH. destruct (String.eqb_spec k0 k') as [->|].
      * destruct (String.eqb_spec k k'); [congruence | reflexivity].
      * reflexivity.
Qed.

Lemma Map_get_app (m1 m2 : PackageMap) (k : string) :
  Map_get (m1 ++ m2) k =
  match Map_get m1 k with Some v => Some v | None => Map_get m2 k end.
Proof.
  induction m1 as [|[k0 v0] m1 IH]; simpl; [reflexivity|].
  destruct (String.eqb k0 k); [reflexivity | exact IH].
Qed.

Lemma merge_entry_keys (m : PackageMap) (e : Entry) :
  keys (merge_entry m e) =
  match Map_get m (entry_id e) with
  | Some _ => keys m
  | None => keys m ++ [entry_id e]
  end.
Proof.
  unfold merge_entry; rewrite Map_mutate_keys.
  destruct (Map_get m (entry_id e)) eqn:E; [reflexivity|].
  rewrite Map_set_fresh by exact E. unfold keys; now rewrite map_app.
Qed.

Lemma merge_entry_get (m : PackageMap) (e : Entry) (k : string) :
  Map_get (merge_entry m e) k =
  if String.eqb (entry_id e) k
  then Some (record_entry e (entry_for m (entry_id e)))
  else Map_get m k.
Proof.
  unfold merge_entry, entry_for; rewrite Map_mutate_get.
  destruct (Map_get m (entry_id e)) eqn:E.
  - rewrite E; reflexivity.
  - rewrite Map_set_fresh by exact E. rewrite !Map_get_app, E; simpl.
    rewrite String.eqb_refl; simpl.
    destruct (String.eqb_spec (entry_id e) k) as [<-|Hne]; [reflexivity|].
    destruct (Map_get m k); [reflexivity|].
    destruct (String.eqb_spec (entry_id e) k); [contradiction | reflexivity].
Qed.

Lemma merge_entry_NoDup (m : PackageMap) (e : Entry) :
  NoDup (keys m) -> NoDup (keys (merge_entry m e)).
Proof.
  intros N; rewrite merge_entry_keys.
  destruct (Map_get m (entry_id e)) eqn:E; [exact N|].
  apply Map_get_None in E.
  apply NoDup_rev in N. rewrite <- (rev_involutive (keys m ++ _)).
  apply NoDup_rev. rewrite rev_app_distr; simpl.
  constructor; [rewrite <- in_rev; exact E | exact N].
Qed.

Lemma add_if_truthy_In (s : StringSet) (o : option string) (v : string) :
  In v (add_if_truthy s o) <-> In v s \/ (o = Some v /\ v <> "").
Proof.
  unfold add_if_truthy; destruct o as [w|].
  - destruct (JS.truthy w) eqn:T.
    + rewrite Set_add_In. apply truthy_nonempty in T.
      split; intros [H|H]; auto; [subst; auto|].
      destruct H as [H _]; right; congruence.
    + split; [auto | intros [H|[H N]]; [exact H|]].
      injection H as ->. apply truthy_nonempty in N; congruence.
  - split; [auto | intros [H|[H _]]; [exact H | discriminate]].
Qed.

Lemma add_if_truthy_NoDup (s : StringSet) (o : option string) :
  NoDup s -> NoDup (add_if_truthy s o).
Proof.
  intros H; unfold add_if_truthy; destruct o as [w|]; [|exact H].
  destruct (JS.truthy w); [apply Set_add_NoDup|]; exact H.
Qed.

(* ================================================================== *)
(** * The merge of entries into the map *)

Lemma entry_for_merged (es : list Entry) (m : PackageMap) (k : string) :
  merged_map es m ->
  id (entry_for m k) = k /\ merges es (entry_for m k) /\ sets_NoDup (entry_for m k).
Proof.
  intros (N & K & G); unfold entry_for.
  destruct (Map_get m k) as [c|] eqn:E; [exact (G k c E)|].
  apply Map_get_None in E. rewrite K in E.
  split; [reflexivity|]. split.
  - unfold merges; simpl; repeat apply conj; intros v;
      (split; [intros [] | intros (e & He & Hid & _); apply E; exists e; auto]).
  - repeat split; constructor.
Qed.

Lemma merges_snoc_other (es : list Entry) (e : Entry) (c : OutdatedPackage) :
  entry_id e <> id c -> merges es c -> merges (es ++ [e]) c.
Proof.
  intros Hne (R & L & C); repeat split.
  - intros H; apply R in H; destruct H as (e' & He' & H);
      exists e'; rewrite in_app_iff; auto.
  - intros (e' & He' & Hid & H); apply R.
    apply in_app_iff in He'; destruct He' as [He'|[<-|[]]]; [eauto | contradiction].
  - intros H; apply L in H; destruct H as (e' & He' & H);
      exists e'; rewrite in_app_iff; auto.
  - intros (e' & He' & Hid & H); apply L.
    apply in_app_iff in He'; destruct He' as [He'|[<-|[]]]; [eauto | contradiction].
  - intros H; apply C in H; destruct H as (e' & He' & H);
      exists e'; rewrite in_app_iff; auto.
  - intros (e' & He' & Hid & H); apply C.
    apply in_app_iff in He'; destruct He' as [He'|[<-|[]]]; [eauto | contradiction].
Qed.

Lemma merges_snoc_same (es : list Entry) (e : Entry) (c : OutdatedPackage) :
  entry_id e = id c -> merges es c -> merges (es ++ [e]) (record_entry e c).
Proof.
  intros Hid (R & L & C).
  assert (last : In e (es ++ [e])) by (apply in_app_iff; right; left; reflexivity).
  repeat split; simpl.
  - rewrite add_if_truthy_In, R. intros [(e' & He' & H)|H].
    + exists e'; rewrite in_app_iff; auto.
    + exists e; auto.
  - rewrite add_if_truthy_In, R. intros (e' & He' & H).
    apply in_app_iff in He'; destruct He' as [He'|[<-|[]]];
      [left; eauto | right; exact (proj2 H)].
  - rewrite add_if_truthy_In, L. intros [(e' & He' & H)|H].
    + exists e'; rewrite in_app_iff; auto.
    + exists e; auto.
  - rewrite add_if_truthy_In, L. intros (e' & He' & H).
    apply in_app_iff in He'; destruct He' as [He'|[<-|[]]];
      [left; eauto | right; exact (proj2 H)].
  - rewrite Set_add_In, C. intros [(e' & He' & H)|H].
    + exists e'; rewrite in_app_iff; auto.
    + exists e; auto.
  - rewrite Set_add_In, C. intros (e' & He' & H).
    apply in_app_iff in He'; destruct He' as [He'|[<-|[]]];
      [left; eauto | right; symmetry; exact (proj2 H)].
Qed.

Lemma record_entry_NoDup (e : Entry) (c : OutdatedPackage) :
  sets_NoDup c -> sets_NoDup (record_entry e c).
Proof.
  intros (R & L & C); repeat split; simpl;
    auto using add_if_truthy_NoDup, Set_add_NoDup.
Qed.

(** One turn of the loop keeps the map in step with the entries. *)
Lemma merge_entry_merged (es : list Entry) (m : PackageMap) (e : Entry) :
  merged_map es m -> merged_map (es ++ [e]) (merge_entry m e).
Proof.
  intros M. pose proof M as (N & K & G).
  split; [apply merge_entry_NoDup; exact N|]. split.
  - intros k. rewrite merge_entry_keys.
    destruct (Map_get m (entry_id e)) as [c|] eqn:E.
    + rewrite K. split; intros (e' & He' & Hid).
      * exists e'; rewrite in_app_iff; auto.
      * apply in_app_iff in He'; destruct He' as [He'|[<-|[]]]; [eauto|].
        apply K, Map_get_keys. rewrite <- Hid; eauto.
    + rewrite in_app_iff, K; simpl. split.
      * intros [(e' & He' & Hid)|[<-|[]]].
        -- exists e'; rewrite in_app_iff; auto.
        -- exists e; rewrite in_app_iff; simpl; auto.
      * intros (e' & He' & Hid).
        apply in_app_iff in He'; destruct He' as [He'|[<-|[]]]; eauto.
  - intros k c. rewrite merge_entry_get.
    destruct (String.eqb_spec (entry_id e) k) as [<-|Hne].
    + intros H; injection H as <-.
      destruct (entry_for_merged es m (entry_id e) M) as (I & Mg & D).
      split; [exact I|]. split.
      * apply merges_snoc_same; [symmetry; exact I | exact Mg].
      * apply record_entry_NoDup; exact D.
    + intros H. destruct (G k c H) as (I & Mg & D).
      split; [exact I|]. split; [|exact D].
      apply merges_snoc_other; [congruence | exact Mg].
Qed.

Lemma fold_merge_merged (es done : list Entry) (m : PackageMap) :
  merged_map done m -> merged_map (done ++ es) (fold_left merge_entry es m).
Proof.
  revert done m; induction es as [|e es IH]; intros done m M; simpl.
  - now rewrite app_nil_r.
  - replace (done ++ e :: es) with ((done ++ [e]) ++ es)
      by (now rewrite <- app_assoc).
    apply IH, merge_entry_merged, M.
Qed.

Lemma accumulate_merged (es : list Entry) : merged_map es (accumulate es).
Proof.
  apply (fold_merge_merged es [] []).
  split; [constructor|]. split.
  - intros k; simpl; split; [intros [] | intros (e & [] & _)].
  - intros k c H; discriminate.
Qed.

(* ================================================================== *)
(** * The loops and the entries of the document *)

Lemma packages_loop (pn fn : json number) (pkgs : list (json number)) (m : PackageMap) :
  for_of (process_package pn fn) pkgs m =
  (es <- collect_some (read_package pn fn) pkgs ;; ret (fold_left merge_entry es m)).
Proof.
  revert m; induction pkgs as [|pkg pkgs IH]; intros m; simpl; [reflexivity|].
  unfold process_package at 1.
  destruct (read_package pn fn pkg) as [err|[e|]]; simpl; [reflexivity| |].
  - rewrite IH. now destruct (collect_some _ pkgs).
  - rewrite IH. now destruct (collect_some _ pkgs).
Qed.

Lemma frameworks_loop (pn : json number) (fws : list (json number)) (m : PackageMap) :
  for_of (process_framework pn) fws m =
  (es <- collect_all (framework_entries pn) fws ;; ret (fold_left merge_entry es m)).
Proof.
  revert m; induction fws as [|fw fws IH]; intros m; simpl; [reflexivity|].
  unfold process_framework at 1, framework_entries at 1.
  rewrite packages_loop.
  destruct (collect_some _ _) as [err|es1]; simpl; [reflexivity|].
  rewrite IH. destruct (collect_all _ fws) as [err|es2]; simpl; [reflexivity|].
  now rewrite fold_left_app.
Qed.

Lemma projects_loop (projects : list (json number)) (m : PackageMap) :
  for_of process_project projects m =
  (es <- collect_all project_entries projects ;; ret (fold_left merge_entry es m)).
Proof.
  revert m; induction projects as [|p ps IH]; intros m; simpl; [reflexivity|].
  unfold process_project at 1, project_entries at 1.
  rewrite frameworks_loop.
  destruct (collect_all (framework_entries _) _) as [err|es1]; simpl; [reflexivity|].
  rewrite IH. destruct (collect_all _ ps) as [err|es2]; simpl; [reflexivity|].
  now rewrite fold_left_app.
Qed.

(** The loops merge the entries of the document, in traversal order. *)
Lemma collect_entries (data : json number) :
  collect data = (es <- entries data ;; ret (accumulate es)).
Proof. unfold collect, entries, accumulate; apply projects_loop. Qed.

Lemma normalize_entries (data : json number) :
  normalize data =
  (es <- entries data ;; ret (Array_sort by_id (Map_values (accumulate es)))).
Proof.
  unfold normalize; rewrite collect_entries.
  now destruct (entries data).
Qed.

(** Normalisation returns exactly when the entries can be read. *)
Lemma normalize_returns (data : json number) (pkgs : list OutdatedPackage) :
  normalize data = inr pkgs <->
  exists es, entries data = inr es /\
             pkgs = Array_sort by_id (Map_values (accumulate es)).
Proof.
  rewrite normalize_entries. destruct (entries data) as [err|es]; simpl; split.
  - discriminate.
  - intros (es & H & _); discriminate.
  - intros H; injection H as <-; eauto.
  - intros (es' & H & ->); injection H as <-; reflexivity.
Qed.

(* ================================================================== *)
(** * The sort *)

Lemma sort_insert_perm {A : Type} (compare : A -> A -> Z) (x : A) (l : list A) :
  Permutation (x :: l) (sort_insert compare x l).
Proof.
  induction l as [|y l IH]; simpl; [reflexivity|].
  destruct (compare x y <=? 0); [reflexivity|].
  rewrite perm_swap; now constructor.
Qed.

Lemma Array_sort_perm {A : Type} (compare : A -> A -> Z) (l : list A) :
  Permutation l (Array_sort compare l).
Proof.
  induction l as [|x l IH]; simpl; [reflexivity|].
  rewrite <- sort_insert_perm; now constructor.
Qed.

Lemma Array_sort_In {A : Type} (compare : A -> A -> Z) (l : list A) (x : A) :
  In x (Array_sort compare l) <-> In x l.
Proof.
  split; apply Permutation_in;
    [symmetry|]; apply Array_sort_perm.
Qed.

Lemma sort_insert_sorted {A : Type} (compare : A -> A -> Z) (x : A) (l : list A) :
  (forall a b, 0 < compare a b -> compare b a <= 0) ->
  Sorted (fun a b => compare a b <= 0) l ->
  Sorted (fun a b => compare a b <= 0) (sort_insert compare x l).
Proof.
  intros total; induction l as [|y l IH]; simpl; intros S.
  - repeat constructor.
  - destruct (Z.leb_spec (compare x y) 0) as [L|G].
    + constructor; [exact S | constructor; exact L].
    + inversion S as [|? ? S' Hd]; subst.
      constructor; [apply IH; exact S'|].
      destruct l as [|z l]; simpl.
      * constructor; apply total; exact G.
      * destruct (compare x z <=? 0); constructor.
        -- apply total; exact G.
        -- inversion Hd; assumption.
Qed.

Lemma Array_sort_sorted {A : Type} (compare : A -> A -> Z) (l : list A) :
  (forall a b, 0 < compare a b -> compare b a <= 0) ->
  Sorted (fun a b => compare a b <= 0) (Array_sort compare l).
Proof.
  intros total; induction l as [|x l IH]; simpl; [constructor|].
  apply sort_insert_sorted; assumption.
Qed.

(** The sorted array is in ascending order of id: each candidate comes
    before every candidate that follows it. *)
Lemma sorted_by_id (l : list OutdatedPackage) :
  StronglySorted id_le (Array_sort by_id l).
Proof.
  apply Sorted_StronglySorted.
  - intros a b c; unfold id_le, by_id; apply localeCompare_trans.
  - apply (Array_sort_sorted by_id).
    intros a b; unfold by_id; apply localeCompare_total.
Qed.

(* ================================================================== *)
(** * Properties of the inventory normaliser *)

Lemma In_Map_get (m : PackageMap) (k : string) (c : OutdatedPackage) :
  NoDup (keys m) -> In (k, c) m -> Map_get m k = Some c.
Proof.
  induction m as [|[k0 c0] m IH]; simpl; intros N; [intros []|].
  inversion N as [|? ? Hk Hm]; subst.
  intros [H|H].
  - injection H as -> ->; now rewrite String.eqb_refl.
  - destruct (String.eqb_spec k0 k) as [->|]; [|auto].
    exfalso; apply Hk. change k with (fst (k, c)); now apply in_map.
Qed.

Lemma merged_map_ids (es : list Entry) (m : PackageMap) :
  merged_map es m -> map id (Map_values m) = keys m.
Proof.
  intros (N & _ & G).
  assert (H : forall k c, In (k, c) m -> id c = k)
    by (intros k c I; apply (G k c), In_Map_get; assumption).
  clear N G; unfold Map_values, keys; induction m as [|[k c] m IH]; simpl;
    [reflexivity|].
  rewrite (H k c) by (left; reflexivity).
  f_equal. apply IH; intros k' c' I; apply H; right; exact I.
Qed.

(** What normalisation returns, in terms of the entries it read. *)
Lemma normalize_merged (data : json number) (pkgs : list OutdatedPackage) :
  normalize data = inr pkgs ->
  exists es,
    entries data = inr es /\
    Permutation (Map_values (accumulate es)) pkgs /\
    merged_map es (accumulate es).
Proof.
  intros H; apply normalize_returns in H; destruct H as (es & He & ->).
  exists es; split; [exact He|]. split;
    [apply Array_sort_perm | apply accumulate_merged].
Qed.

Lemma merged_candidate (es : list Entry) (m : PackageMap) (c : OutdatedPackage) :
  merged_map es m -> In c (Map_values m) ->
  Map_get m (id c) = Some c /\ merges es c /\ sets_NoDup c.
Proof.
  intros M I. pose proof M as (N & _ & G).
  apply Map_values_In in I; [|exact N]. destruct I as [k I].
  destruct (G k c I) as (E & Mg & D); subst k; auto.
Qed.

(** C3.  Normalisation returns exactly one candidate per distinct
    package id: no two candidates have the same id, the ids are those of
    the package entries of the document, and each candidate holds what
    all the entries of its id contribute, and nothing else. *)
Theorem normalize_one_candidate_per_id
    (data : json number) (pkgs : list OutdatedPackage) :
  normalize data = inr pkgs ->
  exists es,
    entries data = inr es /\
    NoDup (map id pkgs) /\
    (forall k, In k (map id pkgs) <-> exists e, In e es /\ entry_id e = k) /\
    (forall c, In c pkgs -> merges es c /\ sets_NoDup c).
Proof.
  intros H; destruct (normalize_merged _ _ H) as (es & He & P & M).
  exists es; split; [exact He|].
  pose proof (merged_map_ids _ _ M) as Ids.
  pose proof M as (N & K & _).
  assert (Pid : Permutation (keys (accumulate es)) (map id pkgs))
    by (rewrite <- Ids; apply Permutation_map, P).
  split; [|split].
  - apply (Permutation_NoDup Pid), N.
  - intros k; rewrite <- K. split; apply Permutation_in;
      [symmetry|]; exact Pid.
  - intros c I. apply (Permutation_in _ (Permutation_sym P)) in I.
    apply (merged_candidate _ _ _ M I).
Qed.

(** C10.  In every candidate that normalisation returns, the resolved
    and the latest versions are non-empty strings and the set of
    contexts is not empty. *)
Theorem normalize_candidates_well_formed
    (data : json number) (pkgs : list OutdatedPackage) (c : OutdatedPackage) :
  normalize data = inr pkgs -> In c pkgs ->
  (forall v, In v (resolvedVersions c) -> v <> "") /\
  (forall v, In v (latestVersions c) -> v <> "") /\
  contexts c <> [].
Proof.
  intros H I; destruct (normalize_merged _ _ H) as (es & He & P & M).
  apply (Permutation_in _ (Permutation_sym P)) in I.
  destruct (merged_candidate _ _ _ M I) as (G & (R & L & C) & _).
  split; [|split].
  - intros v Hv; apply R in Hv; destruct Hv as (e & _ & _ & _ & Hv); exact Hv.
  - intros v Hv; apply L in Hv; destruct Hv as (e & _ & _ & _ & Hv); exact Hv.
  - destruct M as (_ & K & _).
    assert (Hk : In (id c) (keys (accumulate es))) by (apply Map_get_keys; eauto).
    apply K in Hk; destruct Hk as (e & Ie & Hid).
    intros E. assert (X : In (entry_context e) (contexts c)) by (apply C; eauto).
    rewrite E in X; exact X.
Qed.

(** The elements a traversal reads are among the entries it returns. *)
Lemma collect_some_In {A B : Type} (f : A -> Throws (option B)) (l : list A)
    (es : list B) (x : A) :
  collect_some f l = inr es -> In x l ->
  exists r, f x = inr r /\ forall b, r = Some b -> In b es.
Proof.
  revert es; induction l as [|y l IH]; simpl; intros es H; [intros []|].
  destruct (f y) as [err|r] eqn:Fy; simpl in H; [discriminate|].
  destruct (collect_some f l) as [err|rs]; simpl in H; [discriminate|].
  injection H as <-. intros [->|I].
  - exists r; split; [exact Fy|]. intros b ->; left; reflexivity.
  - destruct (IH rs eq_refl I) as (r' & Fx & Hin).
    exists r'; split; [exact Fx|]. intros b Hb.
    destruct r; [right|]; auto.
Qed.

Lemma collect_all_In {A B : Type} (f : A -> Throws (list B)) (l : list A)
    (es : list B) (x : A) :
  collect_all f l = inr es -> In x l ->
  exists r, f x = inr r /\ incl r es.
Proof.
  revert es; induction l as [|y l IH]; simpl; intros es H; [intros []|].
  destruct (f y) as [err|r] eqn:Fy; simpl in H; [discriminate|].
  destruct (collect_all f l) as [err|rs]; simpl in H; [discriminate|].
  injection H as <-. intros [->|I].
  - exists r; split; [exact Fy | apply incl_appl, incl_refl].
  - destruct (IH rs eq_refl I) as (r' & Fx & Hin).
    exists r'; split; [exact Fx | apply incl_appr, Hin].
Qed.

(** A package of the document is read without a throw when the entries
    are, and what is read of it is one of the entries. *)
Lemma entries_In (data project framework pkg : json number) (es : list Entry) :
  entries data = inr es ->
  In project (array_or_empty (get data "projects")) ->
  In framework (array_or_empty (get project "frameworks")) ->
  In pkg (array_or_empty (get framework "topLevelPackages")) ->
  exists r,
    read_package (projectName_of project) (frameworkName_of framework) pkg = inr r /\
    forall e, r = Some e -> In e es.
Proof.
  intros He Ip If Ik.
  destruct (collect_all_In _ _ _ _ He Ip) as (es1 & H1 & I1).
  destruct (collect_all_In _ _ _ _ H1 If) as (es2 & H2 & I2).
  destruct (collect_some_In _ _ _ _ H2 Ik) as (r & H3 & I3).
  exists r; split; [exact H3|]. intros e Hr; apply I1, I2, I3, Hr.
Qed.

Lemma collect_some_from {A B : Type} (f : A -> Throws (option B)) (l : list A)
    (es : list B) (b : B) :
  collect_some f l = inr es -> In b es -> exists x, In x l /\ f x = inr (Some b).
Proof.
  revert es; induction l as [|y l IH]; simpl; intros es H.
  - injection H as <-; intros [].
  - destruct (f y) as [err|r] eqn:Fy; simpl in H; [discriminate|].
    destruct (collect_some f l) as [err|rs]; simpl in H; [discriminate|].
    injection H as <-. intros I.
    assert (D : r = Some b \/ In b rs)
      by (destruct r as [b'|]; [destruct I as [->|I]|]; auto).
    destruct D as [->|I'].
    + exists y; auto.
    + destruct (IH rs eq_refl I') as (x & Ix & Fx); exists x; auto.
Qed.

Lemma collect_all_from {A B : Type} (f : A -> Throws (list B)) (l : list A)
    (es : list B) (b : B) :
  collect_all f l = inr es -> In b es ->
  exists x r, In x l /\ f x = inr r /\ In b r.
Proof.
  revert es; induction l as [|y l IH]; simpl; intros es H.
  - injection H as <-; intros [].
  - destruct (f y) as [err|r] eqn:Fy; simpl in H; [discriminate|].
    destruct (collect_all f l) as [err|rs]; simpl in H; [discriminate|].
    injection H as <-. intros I; apply in_app_iff in I; destruct I as [I|I].
    + exists y, r; auto.
    + destruct (IH rs eq_refl I) as (x & r' & Ix & Fx & Ir); exists x, r'; auto.
Qed.

(** Conversely, every entry is what is read of some package of the
    document. *)
Lemma entries_from (data : json number) (es : list Entry) (e : Entry) :
  entries data = inr es -> In e es ->
  exists project framework pkg,
    In project (array_or_empty (get data "projects")) /\
    In framework (array_or_empty (get project "frameworks")) /\
    In pkg (array_or_empty (get framework "topLevelPackages")) /\
    read_package (projectName_of project) (frameworkName_of framework) pkg
    = inr (Some e).
Proof.
  intros He Ie.
  destruct (collect_all_from _ _ _ _ He Ie) as (project & es1 & Ip & H1 & I1).
  destruct (collect_all_from _ _ _ _ H1 I1) as (framework & es2 & If & H2 & I2).
  destruct (collect_some_from _ _ _ _ H2 I2) as (pkg & Ik & H3).
  exists project, framework, pkg; auto.
Qed.

(** C2, as the code has it.  When normalisation returns, every package
    of the document that has a non-empty string id has a candidate of
    that id; the context of the package is in the contexts of the
    candidate whether or not a version is present, and a version field
    that is a non-empty string is in the matching set of versions. *)
Theorem usable_package_is_recorded
    (data project framework pkg : json number)
    (pkgs : list OutdatedPackage) (name : string) :
  normalize data = inr pkgs ->
  In project (array_or_empty (get data "projects")) ->
  In framework (array_or_empty (get project "frameworks")) ->
  In pkg (array_or_empty (get framework "topLevelPackages")) ->
  coalesce (get pkg "id") (get pkg "name") = Some (JString name) ->
  name <> "" ->
  exists c p f,
    In c pkgs /\ id c = name /\
    ToString (projectName_of project) = inr p /\
    ToString (frameworkName_of framework) = inr f /\
    In (p ++ " (" ++ f ++ ")")%string (contexts c) /\
    (forall v, get pkg "resolvedVersion" = Some (JString v) -> v <> "" ->
               In v (resolvedVersions c)) /\
    (forall v, get pkg "latestVersion" = Some (JString v) -> v <> "" ->
               In v (latestVersions c)).
Proof.
  intros H Ip If Ik Hid Hne.
  destruct (normalize_merged _ _ H) as (es & He & P & M).
  destruct (entries_In _ _ _ _ _ He Ip If Ik) as (r & Hr & Hin).
  unfold read_package in Hr; rewrite Hid in Hr.
  apply truthy_nonempty in Hne; rewrite Hne in Hr; simpl in Hr.
  destruct (ToString (projectName_of project)) as [err|p]; [discriminate|].
  destruct (ToString (frameworkName_of framework)) as [err|f]; [discriminate|].
  simpl in Hr; injection Hr as <-.
  specialize (Hin _ eq_refl).
  match type of Hin with In ?x _ => set (e := x) in * end.
  pose proof M as (N & K & G).
  assert (Hk : In name (keys (accumulate es))) by (apply K; exists e; auto).
  apply Map_get_keys in Hk; destruct Hk as [c Hc].
  destruct (G _ _ Hc) as (Ic & (R & L & C) & _).
  exists c, p, f. split.
  { apply (Permutation_in _ P), Map_values_In; eauto. }
  split; [exact Ic|]. do 2 (split; [reflexivity|]).
  split; [|split].
  - apply C; exists e; repeat split; [exact Hin | symmetry; exact Ic].
  - intros v Hv Nv; apply R; exists e.
    split; [exact Hin|]. split; [symmetry; exact Ic|]. split; [|exact Nv].
    unfold e; simpl; now rewrite Hv.
  - intros v Hv Nv; apply L; exists e.
    split; [exact Hin|]. split; [symmetry; exact Ic|]. split; [|exact Nv].
    unfold e; simpl; now rewrite Hv.
Qed.

Lemma only_element_single (x : string) : only_element [x] = Some x.
Proof. reflexivity. Qed.

Lemma only_element_other (s : StringSet) :
  List.length s <> 1%nat -> only_element s = None.
Proof.
  intros H; unfold only_element, Set_size.
  destruct (Z.eqb_spec (Z.of_nat (List.length s)) 1); [lia | reflexivity].
Qed.

(** The presenter follows the description policy on every candidate
    whose versions are truthy. *)
Lemma describe_policy (pkg : OutdatedPackage) :
  versions_truthy pkg -> description (present pkg) = description_policy pkg.
Proof.
  intros [R L]; unfold present, description_policy; simpl.
  destruct (resolvedVersions pkg) as [|r [|r' rs]].
  - reflexivity.
  - rewrite only_element_single.
    destruct (latestVersions pkg) as [|l [|l' ls]].
    + reflexivity.
    + rewrite only_element_single; simpl.
      assert (Tr : JS.truthy r = true) by (apply truthy_nonempty, R; left; reflexivity).
      assert (Tl : JS.truthy l = true) by (apply truthy_nonempty, L; left; reflexivity).
      now rewrite Tr, Tl.
    + rewrite only_element_other by (simpl; lia). reflexivity.
  - rewrite only_element_other by (simpl; lia). reflexivity.
Qed.

(** C1.  For every candidate that normalisation returns, the presenter
    renders the only resolved version, an arrow and the only latest
    version when both sets have exactly one element, and the marker
    [multiple versions] in every other case. *)
Theorem presenter_description
    (data : json number) (pkgs : list OutdatedPackage) (pkg : OutdatedPackage) :
  normalize data = inr pkgs -> In pkg pkgs ->
  description (present pkg) =
  match resolvedVersions pkg, latestVersions pkg with
  | [only_resolved], [only_latest] => (only_resolved ++ " -> " ++ only_latest)%string
  | _, _ => "multiple versions"
  end.
Proof.
  intros H I. apply describe_policy.
  destruct (normalize_merged _ _ H) as (es & He & P & M).
  apply (Permutation_in _ (Permutation_sym P)) in I.
  destruct (merged_candidate _ _ _ M I) as (G & (R & L & C) & _).
  split.
  - intros v Hv; apply R in Hv; destruct Hv as (e & _ & _ & _ & Hv); exact Hv.
  - intros v Hv; apply L in Hv; destruct Hv as (e & _ & _ & _ & Hv); exact Hv.
Qed.

Lemma merges_same_elements (es1 es2 : list Entry) (a b : OutdatedPackage) :
  Permutation es1 es2 -> id a = id b -> merges es1 a -> merges es2 b ->
  same_candidate a b.
Proof.
  intros P E (Ra & La & Ca) (Rb & Lb & Cb).
  split; [exact E|].
  repeat apply conj; intros x.
  - rewrite Ra, Rb, E; split; intros (e & Ie & H); exists e; split; auto.
    + apply (Permutation_in _ P Ie).
    + apply (Permutation_in _ (Permutation_sym P) Ie).
  - rewrite La, Lb, E; split; intros (e & Ie & H); exists e; split; auto.
    + apply (Permutation_in _ P Ie).
    + apply (Permutation_in _ (Permutation_sym P) Ie).
  - rewrite Ca, Cb, E; split; intros (e & Ie & H); exists e; split; auto.
    + apply (Permutation_in _ P Ie).
    + apply (Permutation_in _ (Permutation_sym P) Ie).
Qed.

Lemma merged_maps_agree (es1 es2 : list Entry) (a : OutdatedPackage) :
  Permutation es1 es2 -> In a (Map_values (accumulate es1)) ->
  exists b, In b (Map_values (accumulate es2)) /\ same_candidate a b.
Proof.
  intros P I.
  pose proof (accumulate_merged es1) as M1.
  pose proof (accumulate_merged es2) as M2.
  destruct (merged_candidate _ _ _ M1 I) as (Ga & Ma & _).
  pose proof M1 as (_ & K1 & _). pose proof M2 as (N2 & K2 & G2).
  assert (Hk : In (id a) (keys (accumulate es2))).
  { apply K2. assert (Hk : In (id a) (keys (accumulate es1)))
      by (apply Map_get_keys; eauto).
    apply K1 in Hk; destruct Hk as (e & Ie & Hid).
    exists e; split; [apply (Permutation_in _ P Ie) | exact Hid]. }
  apply Map_get_keys in Hk; destruct Hk as [b Hb].
  destruct (G2 _ _ Hb) as (Ib & Mb & _).
  exists b; split; [apply Map_values_In; eauto|].
  apply (merges_same_elements es1 es2); auto.
Qed.

Lemma same_candidate_sym (a b : OutdatedPackage) :
  same_candidate a b -> same_candidate b a.
Proof.
  intros (E & R & L & C); split; [auto|].
  repeat apply conj; intros x; symmetry; auto.
Qed.

(** C5.  Two documents whose package entries are the same up to their
    order normalise to the same candidates: the same ids, each with the
    same resolved versions, latest versions and contexts; and both
    results are in ascending order of id. *)
Theorem normalize_order_independent
    (data1 data2 : json number) (es1 es2 : list Entry) :
  entries data1 = inr es1 -> entries data2 = inr es2 ->
  Permutation es1 es2 ->
  exists out1 out2,
    normalize data1 = inr out1 /\ normalize data2 = inr out2 /\
    same_candidates out1 out2 /\
    NoDup (map id out1) /\ NoDup (map id out2) /\
    StronglySorted id_le out1 /\ StronglySorted id_le out2.
Proof.
  intros H1 H2 P.
  exists (Array_sort by_id (Map_values (accumulate es1))),
         (Array_sort by_id (Map_values (accumulate es2))).
  split; [apply normalize_returns; eauto|].
  split; [apply normalize_returns; eauto|].
  split; [|split; [|split; [|split]]].
  - split.
    + intros a Ia; apply Array_sort_In in Ia.
      destruct (merged_maps_agree es1 es2 a P Ia) as (b & Ib & S).
      exists b; split; [apply Array_sort_In; exact Ib | exact S].
    + intros b Ib; apply Array_sort_In in Ib.
      destruct (merged_maps_agree es2 es1 b (Permutation_sym P) Ib) as (a & Ia & S).
      exists a; split; [apply Array_sort_In; exact Ia | apply same_candidate_sym, S].
  - apply (Permutation_NoDup (Permutation_map id (Array_sort_perm by_id _))).
    rewrite (merged_map_ids es1) by apply accumulate_merged.
    apply (accumulate_merged es1).
  - apply (Permutation_NoDup (Permutation_map id (Array_sort_perm by_id _))).
    rewrite (merged_map_ids es2) by apply accumulate_merged.
    apply (accumulate_merged es2).
  - apply sorted_by_id.
  - apply sorted_by_id.
Qed.

(** C6.  The sequence that normalisation returns for a payload that
    parses is in ascending order of id under [localeCompare]. *)
Theorem parseOutdatedPackages_sorted
    (jsonText : string) (pkgs : list OutdatedPackage) :
  parseOutdatedPackages jsonText = inr pkgs ->
  StronglySorted (fun a b => localeCompare (id a) (id b) <= 0) pkgs.
Proof.
  unfold parseOutdatedPackages.
  destruct (JSON_parse (extractJsonPayload jsonText)) as [err|data]; simpl;
    [discriminate|].
  intros H; apply normalize_returns in H; destruct H as (es & _ & ->).
  apply sorted_by_id.
Qed.

(* ================================================================== *)
(** * Properties of the orchestrator *)

(** Follow a run through the program: one step per call, one case per
    answer the program looks at. *)
Ltac step_run H :=
  match type of H with
  | runs (Return _) _ _ => inversion H; subst; clear H
  | runs (CreateOutputChannel _ _) _ _ => inversion H; subst; clear H
  | runs (OutputShow _ _) _ _ => inversion H; subst; clear H
  | runs (AppendLine _ _) _ _ => inversion H; subst; clear H
  | runs (Spawn _ _ _ _ _ _) _ _ => inversion H; subst; clear H
  | runs (ShowErrorMessage _ _) _ _ => inversion H; subst; clear H
  | runs (ShowInformationMessage _ _) _ _ => inversion H; subst; clear H
  | runs (ShowQuickPick _ _ _) _ _ => inversion H; subst; clear H
  | runs ?p _ _ =>
      match p with
      | context [match ?x with _ => _ end] => destruct x eqn:?; simpl in H
      end
  end.

Ltac follow_run :=
  repeat match goal with
         | H : runs _ _ _ |- _ => progress (simpl in H)
         | H : runs _ _ _ |- _ => step_run H
         end.

(** Find an event in a trace that is written out. *)
Lemma cons_split {A : Type} (e x : A) (l before after : list A) :
  e :: l = before ++ x :: after ->
  (before = [] /\ e = x /\ l = after) \/
  (exists rest, before = e :: rest /\ l = rest ++ x :: after).
Proof.
  destruct before as [|b rest]; simpl; intros H; injection H as -> ->; eauto.
Qed.

Ltac locate H :=
  repeat match type of H with
         | [] = _ ++ _ :: _ => exfalso; exact (app_cons_not_nil _ _ _ H)
         | _ :: _ = _ ++ _ :: _ =>
             apply cons_split in H;
             destruct H as [(-> & H & <-) | (? & -> & H)];
             [first [discriminate H | injection H as <- <- <-] |]
         end.

Lemma length_trim_zero (s : string) :
  (JS.length (JS.trim s) =? 0) = true <-> blank s.
Proof.
  unfold blank, JS.length; destruct (JS.trim s); simpl; split;
    try reflexivity; discriminate.
Qed.

Lemma not_truthy_trim (s : string) :
  negb (JS.truthy (JS.trim s)) = true <-> blank s.
Proof.
  unfold blank; destruct (JS.trim s); simpl; split;
    try reflexivity; discriminate.
Qed.

Lemma select_payload_stdout (r : CommandResult) :
  ~ blank (stdout r) -> select_payload r = stdout r.
Proof.
  intros H; unfold select_payload.
  destruct (JS.length (JS.trim (stdout r)) =? 0) eqn:E; [|reflexivity].
  apply length_trim_zero in E; contradiction.
Qed.

Lemma select_payload_stderr (r : CommandResult) :
  blank (stdout r) -> select_payload r = stderr r.
Proof.
  intros H; unfold select_payload.
  apply length_trim_zero in H; now rewrite H.
Qed.

Lemma with_outdated_payload (cwd : string) (r : CommandResult) :
  code r = 0 -> ~ blank (select_payload r) ->
  with_outdated cwd r = with_payload cwd (select_payload r).
Proof.
  intros C B; unfold with_outdated; rewrite C; simpl.
  destruct (negb (JS.truthy (JS.trim (select_payload r)))) eqn:E; [|reflexivity].
  apply not_truthy_trim in E; contradiction.
Qed.

(** Nothing that follows a payload reports a missing payload. *)
Lemma with_payload_never_missing (cwd jsonPayload : string) (t : list Event) :
  runs (with_payload cwd jsonPayload) t tt -> ~ In (ErrorShown no_json_message) t.
Proof.
  intros H I; unfold with_payload, with_candidates, after_selection,
    upgrade_selected, ensureDotnetOutdated, runCommand in H.
  follow_run; simpl in I;
    repeat (destruct I as [I|I]; [discriminate I|]); exact I.
Qed.

(** C4.  After a successful outdated-check call, the payload handed to
    normalisation is the captured standard output when that is not
    blank, and the captured standard error otherwise; the run reports
    that no payload was received exactly when both streams are blank. *)
Theorem payload_selection (cwd : string) (outdatedResult : CommandResult) :
  code outdatedResult = 0 ->
  (~ blank (stdout outdatedResult) ->
   with_outdated cwd outdatedResult = with_payload cwd (stdout outdatedResult)) /\
  (blank (stdout outdatedResult) -> ~ blank (stderr outdatedResult) ->
   with_outdated cwd outdatedResult = with_payload cwd (stderr outdatedResult)) /\
  (blank (stdout outdatedResult) -> blank (stderr outdatedResult) ->
   with_outdated cwd outdatedResult = ShowErrorMessage no_json_message (Return tt)) /\
  (forall t, runs (with_outdated cwd outdatedResult) t tt ->
             (In (ErrorShown no_json_message) t <->
              blank (stdout outdatedResult) /\ blank (stderr outdatedResult))).
Proof.
  intros C.
  assert (P1 : ~ blank (stdout outdatedResult) ->
               with_outdated cwd outdatedResult
               = with_payload cwd (stdout outdatedResult)).
  { intros B. pose proof (select_payload_stdout _ B) as E.
    rewrite with_outdated_payload; rewrite ?E; auto. }
  assert (P2 : blank (stdout outdatedResult) -> ~ blank (stderr outdatedResult) ->
               with_outdated cwd outdatedResult
               = with_payload cwd (stderr outdatedResult)).
  { intros B1 B2. pose proof (select_payload_stderr _ B1) as E.
    rewrite with_outdated_payload; rewrite ?E; auto. }
  assert (P3 : blank (stdout outdatedResult) -> blank (stderr outdatedResult) ->
               with_outdated cwd outdatedResult
               = ShowErrorMessage no_json_message (Return tt)).
  { intros B1 B2. unfold with_outdated; rewrite C; simpl.
    rewrite select_payload_stderr by exact B1.
    apply not_truthy_trim in B2; now rewrite B2. }
  split; [exact P1|]. split; [exact P2|]. split; [exact P3|].
  intros t Hrun; split.
  - intros I.
    destruct (string_dec (JS.trim (stdout outdatedResult)) "") as [B1|B1];
      [|rewrite (P1 B1) in Hrun; now apply with_payload_never_missing in Hrun].
    destruct (string_dec (JS.trim (stderr outdatedResult)) "") as [B2|B2];
      [|rewrite (P2 B1 B2) in Hrun; now apply with_payload_never_missing in Hrun].
    split; assumption.
  - intros [B1 B2]. rewrite (P3 B1 B2) in Hrun.
    follow_run; left; reflexivity.
Qed.

(** C7.  When the picker is answered with nothing, by cancelling it or
    by selecting no item, the list it showed was not empty, the run
    ends with the report that nothing was selected, and no call of the
    run probes for, installs or runs the upgrade tool. *)
Theorem empty_selection_stops
    (folder : option string) (t before after : list Event)
    (items : list QuickPickItem) (placeHolder : string)
    (answer : option (list QuickPickItem)) :
  runs (run folder) t tt ->
  t = before ++ Picked items placeHolder answer :: after ->
  answer = None \/ answer = Some [] ->
  items <> [] /\
  after = [InformationShown nothing_selected_message] /\
  Forall (fun e => is_tool_call e = false) t.
Proof.
  intros H Ht Hanswer; revert Ht.
  unfold run, with_outdated, with_payload, with_candidates, after_selection,
    upgrade_selected, ensureDotnetOutdated, runCommandCapture, runCommand in H.
  follow_run; intros Ht; locate Ht;
    try (destruct Hanswer; discriminate);
    (split; [discriminate | split; [reflexivity | repeat constructor]]).
Qed.

(** Every scripted run is a run. *)
Lemma execute_runs {A : Type} (p : Prog A) (children : list Child)
    (picks : list (option (list QuickPickItem))) :
  runs p (fst (execute p children picks)) (snd (execute p children picks)).
Proof.
  revert children picks; induction p as
    [a | name k IH | f k IH | line k IH | cwd command args eo ee k IH
     | text k IH | text k IH | items ph k IH]; intros children picks; simpl.
  - constructor.
  - specialize (IH children picks); destruct (execute k children picks);
      constructor; exact IH.
  - specialize (IH children picks); destruct (execute k children picks);
      constructor; exact IH.
  - specialize (IH children picks); destruct (execute k children picks);
      constructor; exact IH.
  - specialize (IH (hd quiet_child children) (tl children) picks).
    destruct (execute (k (hd quiet_child children)) (tl children) picks).
    constructor; exact IH.
  - specialize (IH children picks); destruct (execute k children picks);
      constructor; exact IH.
  - specialize (IH children picks); destruct (execute k children picks);
      constructor; exact IH.
  - specialize (IH (hd None picks) children (tl picks)).
    destruct (execute (k (hd None picks)) children (tl picks)).
    constructor; exact IH.
Qed.

(* ================================================================== *)
(** * Further properties of the payload extractor *)

Lemma substring_split (s : string) (n : nat) :
  (n <= String.length s)%nat ->
  s = (substring 0 n s ++ substring n (String.length s - n) s)%string.
Proof.
  revert n; induction s as [|a s IH]; intros [|n] H; simpl in *;
    try reflexivity; try lia.
  - now rewrite substring_whole.
  - rewrite <- IH by lia. reflexivity.
Qed.

Lemma substring_substring (s : string) (i k n m : nat) :
  (n + m <= k)%nat ->
  substring n m (substring i k s) = substring (i + n) m s.
Proof.
  intros H; apply get_correct; intros p.
  destruct (Nat.lt_ge_cases p m) as [L|G].
  - rewrite !substring_correct1 by lia. f_equal; lia.
  - now rewrite !substring_correct2 by lia.
Qed.

Lemma occurs_empty (c : ascii) : ~ occurs c "".
Proof. intros [[|i] H]; discriminate. Qed.

(** X1.  Extraction only drops text in front of the first opening brace and
    text behind the last closing brace: the input is the result with a
    prefix that holds no opening brace and a suffix that holds no
    closing brace. *)
Theorem extractJsonPayload_infix (text : string) :
  exists pre post,
    text = (pre ++ extractJsonPayload text ++ post)%string /\
    ~ occurs open_brace pre /\ ~ occurs close_brace post.
Proof.
  pose proof (indexOf_range text open_brace) as Ri.
  pose proof (lastIndexOf_range text close_brace) as Rl.
  assert (same : extractJsonPayload text = text ->
                 exists pre post,
                   text = (pre ++ extractJsonPayload text ++ post)%string /\
                   ~ occurs open_brace pre /\ ~ occurs close_brace post).
  { intros E; exists "", ""; rewrite E; simpl. split; [|split].
    - clear; induction text as [|a s IH]; simpl; [reflexivity | now rewrite <- IH].
    - apply occurs_empty.
    - apply occurs_empty. }
  destruct (Z.eq_dec (JS.indexOf text open_brace) (-1)) as [E1|E1];
    [apply same, extract_unchanged; auto|].
  destruct (Z.eq_dec (JS.lastIndexOf text close_brace) (-1)) as [E2|E2];
    [apply same, extract_unchanged; auto|].
  destruct (Z_le_gt_dec (JS.lastIndexOf text close_brace) (JS.indexOf text open_brace))
    as [E3|E3]; [apply same, extract_unchanged; auto|].
  clear same.
  pose proof (indexOf_first text open_brace ltac:(lia)) as Hf.
  pose proof (lastIndexOf_last text close_brace ltac:(lia)) as Hl.
  set (i := Z.to_nat (JS.indexOf text open_brace)) in *.
  set (j := Z.to_nat (JS.lastIndexOf text close_brace)) in *.
  assert (Hij : (i < j)%nat) by lia.
  pose proof (get_some_length _ _ _ (proj1 Hl)) as Lj.
  rewrite (extract_between text i j Hf Hl Hij).
  exists (substring 0 i text),
         (substring (j + 1) (String.length text - (j + 1)) text).
  split; [|split].
  - rewrite (substring_split text i) at 1 by lia. f_equal.
    set (rest := substring i (String.length text - i) text).
    assert (Lr : String.length rest = (String.length text - i)%nat)
      by (apply substring_length; lia).
    rewrite (substring_split rest (j - i + 1)) by lia.
    rewrite Lr; unfold rest; rewrite !substring_substring by lia.
    f_equal; [f_equal; lia | f_equal; lia].
  - intros [k Hk].
    destruct (Nat.lt_ge_cases k i) as [L|G].
    + rewrite substring_correct1 in Hk by exact L.
      rewrite Nat.add_0_r in Hk. exact (proj2 Hf k L Hk).
    + rewrite substring_correct2 in Hk by exact G. discriminate.
  - intros [k Hk].
    destruct (Nat.lt_ge_cases k (String.length text - (j + 1))) as [L|G].
    + rewrite substring_correct1 in Hk by exact L.
      apply (proj2 Hl (k + (j + 1))%nat); [lia | exact Hk].
    + rewrite substring_correct2 in Hk by exact G. discriminate.
Qed.

Lemma append_length (a b : string) :
  String.length (a ++ b) = (String.length a + String.length b)%nat.
Proof. induction a as [|c a IH]; simpl; [reflexivity | now rewrite IH]. Qed.

(** X2.  A text that already starts with an opening brace and ends with a
    closing brace is returned as it is. *)
Theorem extractJsonPayload_clean (mid : string) :
  extractJsonPayload ("{" ++ mid ++ "}") = ("{" ++ mid ++ "}")%string.
Proof.
  set (text := ("{" ++ mid ++ "}")%string).
  assert (L : String.length text = S (S (String.length mid)))
    by (unfold text; simpl; rewrite append_length; simpl; lia).
  assert (Hf : first_at open_brace text 0)
    by (split; [reflexivity | intros k Hk; lia]).
  assert (Hl : last_at close_brace text (S (String.length mid))).
  { split.
    - unfold text; simpl.
      symmetry; exact (append_correct2 mid "}" 0).
    - intros k Hk. assert (N : String.get k text = None)
        by (apply get_none_length; lia).
      rewrite N; discriminate. }
  rewrite (extract_between text 0 (S (String.length mid)) Hf Hl) by lia.
  replace (S (String.length mid) - 0 + 1)%nat with (String.length text) by lia.
  apply substring_whole.
Qed.

(* ================================================================== *)
(** * Further properties of the inventory normaliser *)

Lemma skipped_is_unusable (projectName frameworkName pkg : json number) :
  read_package projectName frameworkName pkg = inr None -> ~ usable_id pkg.
Proof.
  unfold read_package, usable_id.
  destruct (coalesce (get pkg "id") (get pkg "name")) as [[| | |s| |]|];
    try (intros _ (name & H & _); discriminate).
  destruct s as [|a s]; simpl.
  - intros _ (name & H & N); injection H as <-; auto.
  - destruct (ToString projectName); simpl; [discriminate|].
    destruct (ToString frameworkName); simpl; discriminate.
Qed.

Lemma unusable_is_skipped (projectName frameworkName pkg : json number) :
  ~ usable_id pkg -> read_package projectName frameworkName pkg = inr None.
Proof.
  unfold read_package, usable_id.
  destruct (coalesce (get pkg "id") (get pkg "name")) as [[| | |s| |]|];
    try reflexivity.
  destruct s as [|a s]; simpl; [reflexivity|].
  intros H; exfalso; apply H; eexists; split; [reflexivity | discriminate].
Qed.

(** X3.  A package is skipped exactly when it has no usable id; a skipped
    package is never the cause of a throw, whatever the names are. *)
Theorem read_package_skips (projectName frameworkName pkg : json number) :
  read_package projectName frameworkName pkg = inr None <-> ~ usable_id pkg.
Proof.
  split; [apply skipped_is_unusable | apply unusable_is_skipped].
Qed.

(** X4.  An id that is present and not [null] is the only id looked at: when
    it is not a non-empty string the package is skipped, also when its
    name would do. *)
Theorem id_shadows_name (projectName frameworkName pkg v : json number) :
  get pkg "id" = Some v -> v <> JNull ->
  (forall s, v = JString s -> s = "") ->
  read_package projectName frameworkName pkg = inr None.
Proof.
  intros Hid Hnull Hs. apply unusable_is_skipped.
  intros (name & H & N). rewrite Hid in H.
  destruct v; simpl in H; try discriminate; [congruence|].
  injection H as ->. apply N, Hs; reflexivity.
Qed.

(** A package with a usable id is read with its id, its two version
    fields when they are strings, and its context, unless the
    conversion of a name throws. *)
Lemma read_package_usable (projectName frameworkName pkg : json number)
    (name : string) :
  coalesce (get pkg "id") (get pkg "name") = Some (JString name) -> name <> "" ->
  read_package projectName frameworkName pkg =
  (p <- ToString projectName ;;
   f <- ToString frameworkName ;;
   ret (Some {| entry_id := name;
                entry_resolved := string_or_undefined (get pkg "resolvedVersion");
                entry_latest := string_or_undefined (get pkg "latestVersion");
                entry_context := p ++ " (" ++ f ++ ")" |})).
Proof.
  intros H N; unfold read_package; rewrite H.
  apply truthy_nonempty in N; now rewrite N.
Qed.

(** The conversion of a parsed value throws nothing but the [TypeError]
    of a failed conversion. *)
Lemma ToString_error (v : json number) (err : Error) :
  ToString v = inl err -> err = TypeError cannot_convert.
Proof.
  revert err; induction v as [| b | n | s | items IH | fields]
    using json_array_ind; intros err; simpl; try discriminate.
  - destruct b; discriminate.
  - induction IH as [|x rest Hx _ IHrest]; simpl; [discriminate|].
    intros H.
    destruct (match x with JNull => ret "" | _ => ToString x end)
      as [e1|p] eqn:E1; simpl in H.
    + injection H as <-.
      destruct x; try discriminate E1; apply (Hx _ E1).
    + apply IHrest.
      match type of H with
      | context [bind (bind ?m _) _] => destruct m as [e2|ps]
      end; simpl in H |- *; [exact H | discriminate].
  - destruct (own_property fields "toString"); [|discriminate].
    intros H; injection H as <-; reflexivity.
Qed.

Lemma collect_some_error {A B : Type} (f : A -> Throws (option B)) (l : list A)
    (err : Error) :
  collect_some f l = inl err -> exists x, In x l /\ f x = inl err.
Proof.
  induction l as [|y l IH]; simpl; [discriminate|].
  destruct (f y) as [e|r] eqn:Fy; simpl.
  - intros H; injection H as <-; eauto.
  - destruct (collect_some f l) as [e|rs]; simpl; [|discriminate].
    intros H; injection H as <-.
    destruct (IH eq_refl) as (x & Ix & Fx); eauto.
Qed.

Lemma collect_all_error {A B : Type} (f : A -> Throws (list B)) (l : list A)
    (err : Error) :
  collect_all f l = inl err -> exists x, In x l /\ f x = inl err.
Proof.
  induction l as [|y l IH]; simpl; [discriminate|].
  destruct (f y) as [e|r] eqn:Fy; simpl.
  - intros H; injection H as <-; eauto.
  - destruct (collect_all f l) as [e|rs]; simpl; [|discriminate].
    intros H; injection H as <-.
    destruct (IH eq_refl) as (x & Ix & Fx); eauto.
Qed.

Lemma collect_some_throws {A B : Type} (f : A -> Throws (option B)) (l : list A)
    (x : A) (e : Error) :
  In x l -> f x = inl e -> exists err, collect_some f l = inl err.
Proof.
  induction l as [|y l IH]; simpl; [intros []|].
  intros [->|I] Fx.
  - rewrite Fx; simpl; eauto.
  - destruct (f y); simpl; [eauto|].
    destruct (IH I Fx) as [err ->]; simpl; eauto.
Qed.

Lemma collect_all_throws {A B : Type} (f : A -> Throws (list B)) (l : list A)
    (x : A) (e : Error) :
  In x l -> f x = inl e -> exists err, collect_all f l = inl err.
Proof.
  induction l as [|y l IH]; simpl; [intros []|].
  intros [->|I] Fx.
  - rewrite Fx; simpl; eauto.
  - destruct (f y); simpl; [eauto|].
    destruct (IH I Fx) as [err ->]; simpl; eauto.
Qed.

Lemma read_package_error (projectName frameworkName pkg : json number)
    (err : Error) :
  read_package projectName frameworkName pkg = inl err <->
  usable_id pkg /\
  (ToString projectName = inl err \/
   (exists p, ToString projectName = inr p) /\ ToString frameworkName = inl err).
Proof.
  split.
  - intros H.
    assert (U : usable_id pkg).
    { unfold usable_id.
      unfold read_package in H.
      destruct (coalesce (get pkg "id") (get pkg "name")) as [[| | |s| |]|];
        try discriminate.
      exists s; split; [reflexivity|].
      intros ->; simpl in H; discriminate. }
    split; [exact U|].
    destruct U as (name & Hn & Nn).
    rewrite (read_package_usable _ _ _ _ Hn Nn) in H.
    destruct (ToString projectName) as [e|p]; simpl in H;
      [left; injection H as <-; reflexivity|].
    destruct (ToString frameworkName) as [e|f]; simpl in H; [|discriminate].
    right; split; [eauto | injection H as <-; reflexivity].
  - intros [(name & Hn & Nn) H].
    rewrite (read_package_usable _ _ _ _ Hn Nn).
    destruct H as [->|[[p ->] ->]]; reflexivity.
Qed.

(** X5.  Normalisation throws exactly when some package with a usable id
    sits under a project or a framework whose name cannot be converted
    to a string, and what it throws is the [TypeError] of that
    conversion. *)
Theorem normalize_throws_iff (data : json number) :
  (exists err, normalize data = inl err) <->
  (exists project framework pkg,
     package_of data project framework pkg /\ usable_id pkg /\
     ((exists e, ToString (projectName_of project) = inl e) \/
      (exists e, ToString (frameworkName_of framework) = inl e))).
Proof.
  rewrite normalize_entries. split.
  - intros [err H].
    destruct (entries data) as [e|es] eqn:E; simpl in H; [|discriminate].
    destruct (collect_all_error _ _ _ E) as (project & Ip & H1).
    destruct (collect_all_error _ _ _ H1) as (framework & If & H2).
    destruct (collect_some_error _ _ _ H2) as (pkg & Ik & H3).
    apply read_package_error in H3; destruct H3 as [U H3].
    exists project, framework, pkg. split; [repeat split; assumption|].
    split; [exact U|]. destruct H3 as [H3|[_ H3]]; eauto.
  - intros (project & framework & pkg & (Ip & If & Ik) & U & H).
    assert (R : exists e, read_package (projectName_of project)
                            (frameworkName_of framework) pkg = inl e).
    { destruct H as [[e H]|[e H]].
      - exists e; apply read_package_error; auto.
      - destruct (ToString (projectName_of project)) as [e'|p] eqn:P.
        + exists e'; apply read_package_error; auto.
        + exists e; apply read_package_error; split; [exact U|].
          right; split; [eauto | exact H]. }
    destruct R as [e R].
    destruct (collect_some_throws _ _ _ _ Ik R) as [e2 H2].
    destruct (collect_all_throws (framework_entries (projectName_of project))
                _ framework e2 If H2) as [e1 H1].
    destruct (collect_all_throws project_entries _ project e1 Ip H1) as [e0 H0].
    exists e0. unfold entries; rewrite H0; reflexivity.
Qed.


Lemma collect_some_none {A B : Type} (f : A -> Throws (option B)) (l : list A) :
  (forall x, In x l -> f x = inr None) -> collect_some f l = inr [].
Proof.
  induction l as [|y l IH]; simpl; intros H; [reflexivity|].
  rewrite (H y) by auto; simpl. rewrite IH by auto. reflexivity.
Qed.

Lemma collect_all_nil {A B : Type} (f : A -> Throws (list B)) (l : list A) :
  (forall x, In x l -> f x = inr []) -> collect_all f l = inr [].
Proof.
  induction l as [|y l IH]; simpl; intros H; [reflexivity|].
  rewrite (H y) by auto; simpl. rewrite IH by auto. reflexivity.
Qed.

(** X7.  Normalisation returns the empty sequence exactly when no package of
    the document has a usable id. *)
Theorem normalize_empty_iff (data : json number) :
  normalize data = inr [] <->
  (forall project framework pkg,
     package_of data project framework pkg -> ~ usable_id pkg).
Proof.
  split.
  - intros H project framework pkg (Ip & If & Ik).
    destruct (normalize_merged _ _ H) as (es & He & P & M).
    apply Permutation_sym, Permutation_nil in P.
    assert (Hes : es = []).
    { destruct es as [|e es]; [reflexivity|]. exfalso.
      destruct M as (_ & K & _).
      assert (I : In (entry_id e) (keys (accumulate (e :: es))))
        by (apply K; exists e; simpl; auto).
      unfold keys in I. unfold Map_values in P.
      destruct (accumulate (e :: es)); [exact I | discriminate P]. }
    subst es.
    destruct (entries_In _ _ _ _ _ He Ip If Ik) as (r & Hr & Hin).
    apply (skipped_is_unusable (projectName_of project) (frameworkName_of framework)).
    destruct r as [e|]; [destruct (Hin e eq_refl) | exact Hr].
  - intros H. apply normalize_returns. exists []; split; [|reflexivity].
    unfold entries. apply collect_all_nil; intros project Ip.
    unfold project_entries. apply collect_all_nil; intros framework If.
    unfold framework_entries. apply collect_some_none; intros pkg Ik.
    apply unusable_is_skipped, (H project framework pkg); repeat split; assumption.
Qed.

Lemma Set_add_known (s : StringSet) (x : string) : In x s -> Set_add s x = s.
Proof. intros H; unfold Set_add; apply Set_has_In in H; now rewrite H. Qed.

Lemma Map_mutate_same (m : PackageMap) (k : string) (c : OutdatedPackage) f :
  Map_get m k = Some c -> f c = c -> Map_mutate m k f = m.
Proof.
  induction m as [|[k0 v0] m IH]; simpl; [reflexivity|].
  destruct (String.eqb k0 k).
  - intros H E; injection H as ->; now rewrite E.
  - intros H E; now rewrite IH.
Qed.

(** X8.  A package entry that was merged before leaves the map as it is
    when it is merged again: the sets take no element twice. *)
Theorem merge_known_entry (es : list Entry) (e : Entry) :
  In e es -> merge_entry (accumulate es) e = accumulate es.
Proof.
  intros I. pose proof (accumulate_merged es) as (N & K & G).
  assert (Hk : In (entry_id e) (keys (accumulate es))) by (apply K; eauto).
  apply Map_get_keys in Hk; destruct Hk as [c Hc].
  destruct (G _ _ Hc) as (Ic & (R & L & C) & _).
  unfold merge_entry; rewrite Hc.
  apply (Map_mutate_same _ _ c); [exact Hc|].
  assert (Ar : add_if_truthy (resolvedVersions c) (entry_resolved e)
               = resolvedVersions c).
  { unfold add_if_truthy. destruct (entry_resolved e) as [v|] eqn:Ev; [|reflexivity].
    destruct (JS.truthy v) eqn:T; [|reflexivity].
    apply Set_add_known, R. exists e; repeat split; auto.
    apply truthy_nonempty; exact T. }
  assert (Al : add_if_truthy (latestVersions c) (entry_latest e)
               = latestVersions c).
  { unfold add_if_truthy. destruct (entry_latest e) as [v|] eqn:Ev; [|reflexivity].
    destruct (JS.truthy v) eqn:T; [|reflexivity].
    apply Set_add_known, L. exists e; repeat split; auto.
    apply truthy_nonempty; exact T. }
  assert (Ac : Set_add (contexts c) (entry_context e) = contexts c)
    by (apply Set_add_known, C; exists e; auto).
  unfold record_entry; rewrite Ar, Al, Ac. destruct c; reflexivity.
Qed.

(** X9.  The labels of the items shown are the ids of the candidates, in the
    same order, and no two items have the same label. *)
Theorem labels_identify_candidates
    (data : json number) (pkgs : list OutdatedPackage) :
  normalize data = inr pkgs ->
  map label (map present pkgs) = map id pkgs /\
  NoDup (map label (map present pkgs)).
Proof.
  intros H.
  assert (E : map label (map present pkgs) = map id pkgs)
    by (rewrite map_map; reflexivity).
  split; [exact E|]. rewrite E.
  destruct (normalize_merged _ _ H) as (es & He & P & M).
  apply (Permutation_NoDup (Permutation_map id P)).
  rewrite (merged_map_ids _ _ M). apply M.
Qed.

Lemma NoDup_singleton {A : Type} (l : list A) (v : A) :
  NoDup l -> (l = [v] <-> In v l /\ forall x, In x l -> x = v).
Proof.
  intros N; split.
  - intros ->; split; [left; reflexivity | intros x [<-|[]]; reflexivity].
  - intros [I All]. destruct l as [|a [|b l]].
    + destruct I.
    + rewrite (All a) by (left; reflexivity); reflexivity.
    + exfalso. inversion N as [|? ? Na _]; subst. apply Na.
      rewrite (All a), (All b) by (simpl; auto). left; reflexivity.
Qed.

(** X10.  A candidate has exactly one resolved version when the entries of
    its id that report a resolved version all report that one, and at
    least one of them does; likewise for the latest version. *)
Theorem single_version_iff
    (data : json number) (pkgs : list OutdatedPackage) (c : OutdatedPackage) :
  normalize data = inr pkgs -> In c pkgs ->
  exists es,
    entries data = inr es /\
    (forall r, resolvedVersions c = [r] <->
       (exists e, In e es /\ entry_id e = id c /\ entry_resolved e = Some r /\ r <> "")
       /\ (forall e v, In e es -> entry_id e = id c ->
                       entry_resolved e = Some v -> v <> "" -> v = r)) /\
    (forall l, latestVersions c = [l] <->
       (exists e, In e es /\ entry_id e = id c /\ entry_latest e = Some l /\ l <> "")
       /\ (forall e v, In e es -> entry_id e = id c ->
                       entry_latest e = Some v -> v <> "" -> v = l)).
Proof.
  intros H I; destruct (normalize_merged _ _ H) as (es & He & P & M).
  apply (Permutation_in _ (Permutation_sym P)) in I.
  destruct (merged_candidate _ _ _ M I) as (_ & (R & L & _) & (Dr & Dl & _)).
  exists es; split; [exact He|]. split.
  - intros r; rewrite (NoDup_singleton _ r Dr), R. split.
    + intros [Hr All]; split; [exact Hr|].
      intros e v Ie Hid Hv Nv. apply All, R; eauto 6.
    + intros [Hr All]; split; [exact Hr|].
      intros x Hx; apply R in Hx; destruct Hx as (e & Ie & Hid & Hv & Nv); eauto.
  - intros l; rewrite (NoDup_singleton _ l Dl), L. split.
    + intros [Hl All]; split; [exact Hl|].
      intros e v Ie Hid Hv Nv. apply All, L; eauto 6.
    + intros [Hl All]; split; [exact Hl|].
      intros x Hx; apply L in Hx; destruct Hx as (e & Ie & Hid & Hv & Nv); eauto.
Qed.

(* ================================================================== *)
(** * Further properties of the orchestrator *)

(** A run of [await p] and the rest is a run of [p] followed by a run
    of the rest on the result of [p]. *)
Lemma runs_await {A B : Type} (p : Prog A) (rest : A -> Prog B)
    (t : list Event) (b : B) :
  runs (await p rest) t b <->
  exists t1 a t2, runs p t1 a /\ runs (rest a) t2 b /\ t = t1 ++ t2.
Proof.
  split.
  - revert t; induction p as
      [a | name k IH | f k IH | line k IH | cwd command args eo ee k IH
       | text k IH | text k IH | items ph k IH]; intros t H; simpl in H.
    + exists [], a, t; repeat split; [constructor | exact H].
    + inversion H; subst.
      match goal with R : runs (await _ _) _ _ |- _ =>
        destruct (IH _ R) as (t1 & a & t2 & H1 & H2 & ->) end.
      exists (OutputChannelCreated name :: t1), a, t2;
        repeat split; [constructor|]; assumption.
    + inversion H; subst.
      match goal with R : runs (await _ _) _ _ |- _ =>
        destruct (IH _ R) as (t1 & a & t2 & H1 & H2 & ->) end.
      exists (Shown f :: t1), a, t2; repeat split; [constructor|]; assumption.
    + inversion H; subst.
      match goal with R : runs (await _ _) _ _ |- _ =>
        destruct (IH _ R) as (t1 & a & t2 & H1 & H2 & ->) end.
      exists (LineAppended line :: t1), a, t2;
        repeat split; [constructor|]; assumption.
    + inversion H; subst.
      match goal with R : runs (await _ _) _ _ |- _ =>
        destruct (IH _ _ R) as (t1 & a & t2 & H1 & H2 & ->) end.
      eexists (Spawned cwd command args eo ee _ :: t1), a, t2;
        repeat split; [constructor|]; eassumption.
    + inversion H; subst.
      match goal with R : runs (await _ _) _ _ |- _ =>
        destruct (IH _ R) as (t1 & a & t2 & H1 & H2 & ->) end.
      exists (ErrorShown text :: t1), a, t2;
        repeat split; [constructor|]; assumption.
    + inversion H; subst.
      match goal with R : runs (await _ _) _ _ |- _ =>
        destruct (IH _ R) as (t1 & a & t2 & H1 & H2 & ->) end.
      exists (InformationShown text :: t1), a, t2;
        repeat split; [constructor|]; assumption.
    + inversion H; subst.
      match goal with R : runs (await _ _) _ _ |- _ =>
        destruct (IH _ _ R) as (t1 & a & t2 & H1 & H2 & ->) end.
      eexists (Picked items ph _ :: t1), a, t2;
        repeat split; [constructor|]; eassumption.
  - intros (t1 & a & t2 & H1 & H2 & ->).
    induction H1 as [a | | | | | | |]; simpl;
      [exact H2 | constructor; auto ..].
Qed.

(** One step back along a run, for each call a program can start with. *)
Lemma Return_runs {A : Type} (a b : A) (t : list Event) :
  runs (Return a) t b <-> t = [] /\ b = a.
Proof.
  split; [intros H; inversion H; auto | intros [-> ->]; constructor].
Qed.

Lemma CreateOutputChannel_runs {A : Type} name (k : Prog A) t (a : A) :
  runs (CreateOutputChannel name k) t a <->
  exists t', t = OutputChannelCreated name :: t' /\ runs k t' a.
Proof.
  split; [intros H; inversion H; eauto | intros (t' & -> & H); now constructor].
Qed.

Lemma OutputShow_runs {A : Type} f (k : Prog A) t (a : A) :
  runs (OutputShow f k) t a <-> exists t', t = Shown f :: t' /\ runs k t' a.
Proof.
  split; [intros H; inversion H; eauto | intros (t' & -> & H); now constructor].
Qed.

Lemma AppendLine_runs {A : Type} line (k : Prog A) t (a : A) :
  runs (AppendLine line k) t a <->
  exists t', t = LineAppended line :: t' /\ runs k t' a.
Proof.
  split; [intros H; inversion H; eauto | intros (t' & -> & H); now constructor].
Qed.

Lemma Spawn_runs {A : Type} cwd command args eo ee (k : Child -> Prog A) t (a : A) :
  runs (Spawn cwd command args eo ee k) t a <->
  exists child t', t = Spawned cwd command args eo ee child :: t' /\
                   runs (k child) t' a.
Proof.
  split; [intros H; inversion H; eauto | intros (c & t' & -> & H); now constructor].
Qed.

Lemma ShowErrorMessage_runs {A : Type} text (k : Prog A) t (a : A) :
  runs (ShowErrorMessage text k) t a <->
  exists t', t = ErrorShown text :: t' /\ runs k t' a.
Proof.
  split; [intros H; inversion H; eauto | intros (t' & -> & H); now constructor].
Qed.

Lemma ShowInformationMessage_runs {A : Type} text (k : Prog A) t (a : A) :
  runs (ShowInformationMessage text k) t a <->
  exists t', t = InformationShown text :: t' /\ runs k t' a.
Proof.
  split; [intros H; inversion H; eauto | intros (t' & -> & H); now constructor].
Qed.

Lemma ShowQuickPick_runs {A : Type} items ph
    (k : option (list QuickPickItem) -> Prog A) t (a : A) :
  runs (ShowQuickPick items ph k) t a <->
  exists answer t', t = Picked items ph answer :: t' /\ runs (k answer) t' a.
Proof.
  split; [intros H; inversion H; eauto | intros (c & t' & -> & H); now constructor].
Qed.

Ltac head_call H :=
  match type of H with
  | runs (Return _) _ _ =>
      apply Return_runs in H; destruct H as [? ?]; subst
  | runs (CreateOutputChannel _ _) _ _ =>
      apply CreateOutputChannel_runs in H; destruct H as (? & ? & H); subst
  | runs (OutputShow _ _) _ _ =>
      apply OutputShow_runs in H; destruct H as (? & ? & H); subst
  | runs (AppendLine _ _) _ _ =>
      apply AppendLine_runs in H; destruct H as (? & ? & H); subst
  | runs (Spawn _ _ _ _ _ _) _ _ =>
      apply Spawn_runs in H; destruct H as (? & ? & ? & H); subst
  | runs (ShowErrorMessage _ _) _ _ =>
      apply ShowErrorMessage_runs in H; destruct H as (? & ? & H); subst
  | runs (ShowInformationMessage _ _) _ _ =>
      apply ShowInformationMessage_runs in H; destruct H as (? & ? & H); subst
  | runs (ShowQuickPick _ _ _) _ _ =>
      apply ShowQuickPick_runs in H; destruct H as (? & ? & ? & H); subst
  end.

Ltac head_calls :=
  repeat match goal with H : runs _ _ _ |- _ => head_call H end.

Lemma exit_status_zero (e : ProcessEnd) :
  exit_status e = 0 <-> e = Closed (Some 0).
Proof.
  destruct e as [reason|[status|]]; simpl; split; intros H;
    try discriminate; try congruence; lia.
Qed.

Lemma runCommand_trace (cwd command : string) (args : list string)
    (t : list Event) (status : Z) :
  runs (runCommand cwd command args) t status ->
  exists child,
    t = command_events cwd command args true true child /\
    status = exit_status (child_end child).
Proof.
  unfold runCommand, command_events; intros H; head_calls.
  match goal with H : runs (match child_end ?c with _ => _ end) _ _ |- _ =>
    exists c; destruct (child_end c) as [reason|st]; head_calls; auto
  end.
Qed.

Lemma runCommand_child (cwd command : string) (args : list string) (child : Child) :
  runs (runCommand cwd command args)
       (command_events cwd command args true true child)
       (exit_status (child_end child)).
Proof.
  unfold runCommand, command_events.
  do 2 constructor. destruct (child_end child); repeat constructor.
Qed.

(** X11.  [runCommand] logs the command line, starts one child with both
    streams echoed, logs the reason when the child could not start, and
    returns the exit status of the child. *)
Theorem runCommand_runs (cwd command : string) (args : list string)
    (t : list Event) (status : Z) :
  runs (runCommand cwd command args) t status <->
  exists child,
    t = command_events cwd command args true true child /\
    status = exit_status (child_end child).
Proof.
  split; [apply runCommand_trace|].
  intros (child & -> & ->); apply runCommand_child.
Qed.

(** X12.  [runCommand] returns 0 only for a child that closed with status 0:
    a child that could not start, or that closed without a status,
    counts as a failure. *)
Theorem runCommand_success (cwd command : string) (args : list string)
    (t : list Event) :
  runs (runCommand cwd command args) t 0 <->
  exists child,
    child_end child = Closed (Some 0) /\
    t = [LineAppended (command_line command args);
         Spawned cwd command args true true child].
Proof.
  split.
  - intros H; apply runCommand_trace in H; destruct H as (child & -> & E).
    symmetry in E; apply exit_status_zero in E.
    exists child; split; [exact E|]. unfold command_events; now rewrite E.
  - intros (child & E & ->).
    pose proof (runCommand_child cwd command args child) as R.
    unfold command_events in R; rewrite E in R. exact R.
Qed.

Lemma runCommandCapture_trace (cwd command : string) (args : list string)
    (echoStdout echoStderr : option bool) (t : list Event) (result : CommandResult) :
  runs (runCommandCapture cwd command args echoStdout echoStderr) t result ->
  exists child,
    t = command_events cwd command args (echoes echoStdout) (echoes echoStderr) child /\
    result = captured child.
Proof.
  unfold runCommandCapture, command_events, captured, echoes; intros H; head_calls.
  match goal with H : runs (match child_end ?c with _ => _ end) _ _ |- _ =>
    exists c; destruct (child_end c) as [reason|st]; head_calls; auto
  end.
Qed.

Lemma runCommandCapture_child (cwd command : string) (args : list string)
    (echoStdout echoStderr : option bool) (child : Child) :
  runs (runCommandCapture cwd command args echoStdout echoStderr)
       (command_events cwd command args (echoes echoStdout) (echoes echoStderr) child)
       (captured child).
Proof.
  unfold runCommandCapture, command_events, captured, echoes.
  do 2 constructor. destruct (child_end child); repeat constructor.
Qed.

(** X13.  [runCommandCapture] does the same with the echo of each stream
    under its option, and returns the two streams of the child with its
    exit status, also for a child that could not start. *)
Theorem runCommandCapture_runs (cwd command : string) (args : list string)
    (echoStdout echoStderr : option bool) (t : list Event) (result : CommandResult) :
  runs (runCommandCapture cwd command args echoStdout echoStderr) t result <->
  exists child,
    t = command_events cwd command args (echoes echoStdout) (echoes echoStderr) child /\
    result = captured child.
Proof.
  split; [apply runCommandCapture_trace|].
  intros (child & -> & ->); apply runCommandCapture_child.
Qed.

Lemma ensure_shape (cwd : string) (t : list Event) (ok : bool) :
  runs (ensureDotnetOutdated cwd) t ok -> ensure_trace cwd ok t.
Proof.
  unfold ensureDotnetOutdated; rewrite runs_await.
  intros (t1 & probeCode & t2 & H1 & H2 & ->).
    apply runCommand_trace in H1; destruct H1 as (probe & -> & ->).
    destruct (Z.eqb_spec (exit_status (child_end probe)) 0) as [E|E].
    + head_calls. rewrite app_nil_r. now constructor.
    + apply AppendLine_runs in H2; destruct H2 as (t' & -> & R).
      apply runs_await in R; destruct R as (t3 & installCode & t4 & H3 & H4 & ->).
      apply runCommand_trace in H3; destruct H3 as (install & -> & ->).
      head_calls. rewrite app_nil_r.
      apply (tool_installed cwd probe install E).
Qed.

Lemma ensure_shape_runs (cwd : string) (t : list Event) (ok : bool) :
  ensure_trace cwd ok t -> runs (ensureDotnetOutdated cwd) t ok.
Proof.
  unfold ensureDotnetOutdated; rewrite runs_await.
  intros H; destruct H as [probe E | probe install E].
    + exists (command_events cwd "dotnet" probe_args true true probe),
             (exit_status (child_end probe)), [].
      split; [apply runCommand_child|]. split; [|now rewrite app_nil_r].
      rewrite E; constructor.
    + eexists _, (exit_status (child_end probe)), _.
      split; [apply runCommand_child|]. split; [|reflexivity].
      destruct (Z.eqb_spec (exit_status (child_end probe)) 0); [contradiction|].
      constructor. apply runs_await.
      exists (command_events cwd "dotnet" install_args true true install),
             (exit_status (child_end install)), [].
      split; [apply runCommand_child|]. split; [|now rewrite app_nil_r].
      constructor.
Qed.

(** X14.  [ensureDotnetOutdated] probes for the tool; it installs the tool
    only when the probe fails, and its result says whether the tool is
    there: the probe exited with 0, or the installation did. *)
Theorem ensureDotnetOutdated_runs (cwd : string) (t : list Event) (ok : bool) :
  runs (ensureDotnetOutdated cwd) t ok <-> ensure_trace cwd ok t.
Proof. split; [apply ensure_shape | apply ensure_shape_runs]. Qed.

Lemma push_includes (selections : list QuickPickItem) (start : list string) :
  fold_left (fun args selection => args ++ ["--include"; label selection])
            selections start
  = start ++ flat_map (fun selection => ["--include"; label selection]) selections.
Proof.
  revert start; induction selections as [|s rest IH]; intros start; simpl.
  - now rewrite app_nil_r.
  - rewrite IH, <- app_assoc. reflexivity.
Qed.

Lemma upgrade_args_shape (selections : list QuickPickItem) :
  upgrade_args selections =
  "outdated" :: "--upgrade"
  :: flat_map (fun selection => ["--include"; label selection]) selections.
Proof. unfold upgrade_args; now rewrite push_includes. Qed.

(** X15.  The arguments of the upgrade call are the two fixed ones followed
    by one [--include] and a label per selection, in selection order:
    two arguments more for each selection. *)
Theorem upgrade_args_includes (selections : list QuickPickItem) :
  upgrade_args selections =
  "outdated" :: "--upgrade"
  :: flat_map (fun selection => ["--include"; label selection]) selections /\
  List.length (upgrade_args selections) = (2 + 2 * List.length selections)%nat.
Proof.
  split; [apply upgrade_args_shape|].
  rewrite upgrade_args_shape; simpl. do 2 f_equal.
  induction selections as [|s rest IH]; simpl; [reflexivity | rewrite IH; lia].
Qed.

Lemma upgrade_selected_runs (cwd : string) (selections : list QuickPickItem)
    (t : list Event) :
  runs (upgrade_selected cwd selections) t tt <-> upgrade_trace cwd selections t.
Proof.
  unfold upgrade_selected; rewrite runs_await; split.
  - intros (t1 & ok & t2 & H1 & H2 & ->).
    apply ensure_shape in H1.
    destruct ok; cbn [negb] in H2.
    + apply runs_await in H2; destruct H2 as (t3 & upgradeCode & t4 & H3 & H4 & ->).
      apply runCommand_trace in H3; destruct H3 as (upgrade & -> & ->).
      destruct (Z.eqb_spec (exit_status (child_end upgrade)) 0) as [E|E];
        cbn [negb] in H4; head_calls.
      * now apply upgraded.
      * now apply upgrade_failed.
    + head_calls. now apply tool_missing.
  - intros H; destruct H as [t1 H1 | t1 upgrade H1 E | t1 upgrade H1 E].
    + eexists t1, false, _. split; [now apply ensure_shape_runs|].
      split; [|reflexivity]. repeat constructor.
    + eexists t1, true, _. split; [now apply ensure_shape_runs|].
      split; [|reflexivity]. cbn [negb]. apply runs_await.
      eexists _, (exit_status (child_end upgrade)), _.
      split; [apply runCommand_child|]. split; [|reflexivity].
      destruct (Z.eqb_spec (exit_status (child_end upgrade)) 0); [contradiction|].
      repeat constructor.
    + eexists t1, true, _. split; [now apply ensure_shape_runs|].
      split; [|reflexivity]. cbn [negb]. apply runs_await.
      eexists _, (exit_status (child_end upgrade)), _.
      split; [apply runCommand_child|]. split; [|reflexivity].
      rewrite E. repeat constructor.
Qed.

Lemma with_payload_runs (cwd jsonPayload : string) (t : list Event) :
  runs (with_payload cwd jsonPayload) t tt <-> payload_trace cwd jsonPayload t.
Proof.
  unfold with_payload, with_candidates; split.
  - intros H. destruct (parseOutdatedPackages jsonPayload) as [err|pkgs] eqn:P.
    + head_calls. now apply parse_failed.
    + destruct pkgs as [|pkg pkgs].
      * head_calls. now apply nothing_outdated.
      * apply ShowQuickPick_runs in H; destruct H as (answer & t' & -> & H).
        unfold after_selection in H.
        destruct answer as [[|s sel]|].
        -- head_calls. apply (nothing_selected _ _ _ _ P); [discriminate | auto].
        -- apply upgrade_selected_runs in H.
           apply (selected _ _ _ _ _ P); [discriminate | discriminate | exact H].
        -- head_calls. apply (nothing_selected _ _ _ _ P); [discriminate | auto].
  - intros H; destruct H as [err P | P | pkgs answer P N A | pkgs sel t' P N S U];
      rewrite P.
    + repeat constructor.
    + repeat constructor.
    + destruct pkgs as [|pkg pkgs]; [contradiction|].
      constructor. destruct A as [-> | ->]; repeat constructor.
    + destruct pkgs as [|pkg pkgs]; [contradiction|].
      constructor. destruct sel as [|s sel]; [contradiction|].
      apply upgrade_selected_runs; exact U.
Qed.

Lemma run_shape (folder : option string) (t : list Event) :
  runs (run folder) t tt -> run_trace folder t.
Proof.
  unfold run.
  intros H. destruct folder as [cwd|]; [|head_calls; constructor].
    apply CreateOutputChannel_runs in H; destruct H as (t1 & -> & H).
    apply OutputShow_runs in H; destruct H as (t2 & -> & H).
    apply ShowInformationMessage_runs in H; destruct H as (t3 & -> & H).
    apply runs_await in H; destruct H as (t4 & listCode & t5 & H1 & H & ->).
    apply runCommand_trace in H1; destruct H1 as (listing & -> & ->).
    destruct (Z.eqb_spec (exit_status (child_end listing)) 0) as [E1|E1];
      cbn [negb] in H; [|head_calls; now apply list_failed].
    apply runs_await in H; destruct H as (t6 & result & t7 & H2 & H & ->).
    apply runCommandCapture_trace in H2; destruct H2 as (outdated & -> & ->).
    unfold with_outdated in H.
    change (code (captured outdated)) with (exit_status (child_end outdated)) in H.
    destruct (Z.eqb_spec (exit_status (child_end outdated)) 0) as [E2|E2];
      cbn [negb] in H; [|head_calls; now apply outdated_failed].
    destruct (negb (JS.truthy (JS.trim (select_payload (captured outdated)))))
      eqn:B.
    + head_calls. apply not_truthy_trim in B. now apply no_payload.
    + apply with_payload_runs in H.
      apply payload_received; auto.
      intros X; apply not_truthy_trim in X; congruence.
Qed.

Lemma run_shape_runs (folder : option string) (t : list Event) :
  run_trace folder t -> runs (run folder) t tt.
Proof.
  unfold run.
  intros H; destruct H as
      [ | cwd listing E1 | cwd listing outdated E1 E2
        | cwd listing outdated E1 E2 B | cwd listing outdated t' E1 E2 B P].
    + repeat constructor.
    + do 3 constructor. apply runs_await.
      eexists _, (exit_status (child_end listing)), _.
      split; [apply runCommand_child|]. split; [|reflexivity].
      destruct (Z.eqb_spec (exit_status (child_end listing)) 0); [contradiction|].
      repeat constructor.
    + do 3 constructor. apply runs_await.
      eexists _, (exit_status (child_end listing)), _.
      split; [apply runCommand_child|]. split; [|reflexivity].
      rewrite E1; cbn [Z.eqb negb]. apply runs_await.
      eexists _, (captured outdated), _.
      split; [apply runCommandCapture_child|]. split; [|reflexivity].
      unfold with_outdated.
      change (code (captured outdated)) with (exit_status (child_end outdated)).
      destruct (Z.eqb_spec (exit_status (child_end outdated)) 0); [contradiction|].
      repeat constructor.
    + do 3 constructor. apply runs_await.
      eexists _, (exit_status (child_end listing)), _.
      split; [apply runCommand_child|]. split; [|reflexivity].
      rewrite E1; cbn [Z.eqb negb]. apply runs_await.
      eexists _, (captured outdated), _.
      split; [apply runCommandCapture_child|]. split; [|reflexivity].
      unfold with_outdated.
      change (code (captured outdated)) with (exit_status (child_end outdated)).
      rewrite E2; cbn [Z.eqb negb].
      apply not_truthy_trim in B; rewrite B. repeat constructor.
    + do 3 constructor. apply runs_await.
      eexists _, (exit_status (child_end listing)), _.
      split; [apply runCommand_child|]. split; [|reflexivity].
      rewrite E1; cbn [Z.eqb negb]. apply runs_await.
      eexists _, (captured outdated), _.
      split; [apply runCommandCapture_child|]. split; [|reflexivity].
      unfold with_outdated.
      change (code (captured outdated)) with (exit_status (child_end outdated)).
      rewrite E2; cbn [Z.eqb negb].
      destruct (negb (JS.truthy (JS.trim (select_payload (captured outdated)))))
        eqn:X; [apply not_truthy_trim in X; contradiction|].
      apply with_payload_runs; exact P.
Qed.

(** X16.  Every run of the command handler has one of the shapes of
    [run_trace], and every such shape is a run: the handler stops at
    the first step that fails, at a missing or unreadable payload, at
    an empty result and at an empty selection. *)
Theorem run_runs (folder : option string) (t : list Event) :
  runs (run folder) t tt <-> run_trace folder t.
Proof. split; [apply run_shape | apply run_shape_runs]. Qed.

Lemma calls_app (a b : list Event) : calls (a ++ b) = calls a ++ calls b.
Proof.
  induction a as [|e a IH]; simpl; [reflexivity|].
  destruct e; simpl; now rewrite IH.
Qed.

Lemma calls_command (cwd command : string) (args : list string)
    (eo ee : bool) (child : Child) :
  calls (command_events cwd command args eo ee child)
  = [(args, exit_status (child_end child))].
Proof. unfold command_events; simpl. now destruct (child_end child). Qed.

Lemma ensure_trace_calls (cwd : string) (ok : bool) (t : list Event) :
  ensure_trace cwd ok t ->
  (ok = true /\ calls t = [(probe_args, 0)]) \/
  (exists p i, p <> 0 /\ ok = (i =? 0) /\
               calls t = [(probe_args, p); (install_args, i)]).
Proof.
  intros [probe E | probe install E].
  - left; split; [reflexivity|]. now rewrite calls_command, E.
  - right; exists (exit_status (child_end probe)), (exit_status (child_end install)).
    split; [exact E|]. split; [reflexivity|].
    rewrite calls_app, calls_command. cbn [calls]. now rewrite calls_command.
Qed.

Lemma upgrade_trace_calls (cwd : string) (selections : list QuickPickItem)
    (t : list Event) :
  selections <> [] -> upgrade_trace cwd selections t ->
  call_sequence ((list_args, 0) :: (outdated_args, 0) :: calls t).
Proof.
  intros S [t1 H | t1 upgrade H E | t1 upgrade H E];
    apply ensure_trace_calls in H;
    rewrite ?calls_app, ?calls_command; simpl; rewrite ?app_nil_r;
    destruct H as [[O C] | (p & i & P & O & C)]; rewrite C; simpl;
    try discriminate.
  - apply calls_install; [exact P|].
    intros ->; discriminate.
  - now apply calls_upgrade.
  - symmetry in O; apply Z.eqb_eq in O; subst i. now apply calls_install_upgrade.
  - now apply calls_upgrade.
  - symmetry in O; apply Z.eqb_eq in O; subst i. now apply calls_install_upgrade.
Qed.

(** X17.  The calls of a run come in the order listing, outdated check,
    probe, installation, upgrade; each call is made only when the one
    before exited with 0, but for the installation, which is made only
    when the probe did not; and the upgrade is called with the
    arguments of a non-empty selection. *)
Theorem run_call_sequence (folder : option string) (t : list Event) :
  runs (run folder) t tt -> call_sequence (calls t).
Proof.
  intros H; apply run_shape in H.
  destruct H as
    [ | cwd listing E1 | cwd listing outdated E1 E2
      | cwd listing outdated E1 E2 B | cwd listing outdated t' E1 E2 B P];
    rewrite ?calls_app, ?calls_command; simpl.
  - constructor.
  - now constructor.
  - rewrite E1; constructor.
  - rewrite E1; constructor.
  - rewrite E1, E2.
    destruct P as [err P | P | pkgs answer P N A | pkgs sel t1 P N S U]; simpl;
      try constructor.
    apply (upgrade_trace_calls cwd sel); assumption.
Qed.

Lemma Forall_command (P : Event -> Prop) (cwd command : string)
    (args : list string) (eo ee : bool) (child : Child) :
  (forall line, P (LineAppended line)) ->
  P (Spawned cwd command args eo ee child) ->
  Forall P (command_events cwd command args eo ee child).
Proof.
  intros L S; unfold command_events.
  constructor; [apply L|]. constructor; [exact S|].
  destruct (child_end child); repeat constructor; apply L.
Qed.

Lemma upgrade_args_not_outdated (selections : list QuickPickItem) :
  upgrade_args selections <> outdated_args.
Proof. rewrite upgrade_args_shape; discriminate. Qed.

Lemma spawn_ok_echoed (cwd : string) (args : list string) (child : Child) :
  args <> outdated_args -> spawn_ok cwd (Spawned cwd "dotnet" args true true child).
Proof.
  intros N; repeat split; [discriminate | intros E; contradiction].
Qed.

Lemma ensure_trace_spawns (cwd : string) (ok : bool) (t : list Event) :
  ensure_trace cwd ok t -> Forall (spawn_ok cwd) t.
Proof.
  intros [probe E | probe install E]; rewrite ?Forall_app; repeat split;
    try (apply Forall_command; [intros line; exact I|];
         apply spawn_ok_echoed; discriminate).
  constructor; [exact I|].
  apply Forall_command; [intros line; exact I|].
  apply spawn_ok_echoed; discriminate.
Qed.

(** X18.  Every call of a run starts [dotnet] in the workspace folder; the
    streams of the outdated check are captured without echo, and those
    of every other call are echoed to the output channel. *)
Theorem run_spawns (cwd : string) (t : list Event) :
  runs (run (Some cwd)) t tt -> Forall (spawn_ok cwd) t.
Proof.
  intros H; apply run_shape in H.
  assert (C1 : forall child,
             Forall (spawn_ok cwd)
               (command_events cwd "dotnet" list_args true true child))
    by (intros child; apply Forall_command; [intros line; exact I|];
        apply spawn_ok_echoed; discriminate).
  assert (C2 : forall child,
             Forall (spawn_ok cwd)
               (command_events cwd "dotnet" outdated_args false false child))
    by (intros child; apply Forall_command; [intros line; exact I|];
        repeat split; auto).
  assert (P0 : Forall (spawn_ok cwd) prelude) by (repeat constructor).
  inversion H as
    [ | cwd' listing E1 | cwd' listing outdated E1 E2
      | cwd' listing outdated E1 E2 B | cwd' listing outdated t' E1 E2 B P];
    subst; rewrite ?Forall_app; repeat split; auto;
    try (repeat constructor; fail).
  destruct P as [err P | P | pkgs answer P N A | pkgs sel t1 P N S U];
    try (repeat constructor; fail).
  constructor; [exact I|].
  destruct U as [t2 U | t2 upgrade U E | t2 upgrade U E];
    rewrite ?Forall_app; repeat split;
    try (apply (ensure_trace_spawns _ _ _ U));
    try (repeat constructor; fail);
    (apply Forall_command; [intros line; exact I|];
     apply spawn_ok_echoed, upgrade_args_not_outdated).
Qed.

Lemma command_events_In (e : Event) (cwd command : string) (args : list string)
    (eo ee : bool) (child : Child) :
  In e (command_events cwd command args eo ee child) ->
  (exists line, e = LineAppended line) \/
  e = Spawned cwd command args eo ee child.
Proof.
  unfold command_events; intros [<-|[<-|H]]; eauto.
  destruct (child_end child); [destruct H as [<-|[]]; eauto | destruct H].
Qed.

Lemma ensure_trace_In (e : Event) (cwd : string) (ok : bool) (t : list Event) :
  ensure_trace cwd ok t -> In e t ->
  (exists line, e = LineAppended line) \/
  (exists args child, e = Spawned cwd "dotnet" args true true child /\
                      (args = probe_args \/ args = install_args)).
Proof.
  intros [probe E | probe install E] I.
  - apply command_events_In in I; destruct I as [I| ->]; eauto 6.
  - apply in_app_iff in I; destruct I as [I|[<-|I]]; eauto;
      apply command_events_In in I; destruct I as [I| ->]; eauto 6.
Qed.

Lemma ensure_trace_no_upgrade (cwd : string) (ok : bool) (t : list Event)
    (includes : list string) (status : Z) :
  ensure_trace cwd ok t -> ~ In (upgrade_call includes status) (calls t).
Proof.
  intros H I; apply ensure_trace_calls in H.
  destruct H as [[_ C] | (p & i & _ & _ & C)]; rewrite C in I; simpl in I;
    repeat (destruct I as [I|I]; [discriminate I|]); exact I.
Qed.

Lemma upgrade_trace_success (cwd : string) (selections : list QuickPickItem)
    (t : list Event) :
  upgrade_trace cwd selections t ->
  (In (InformationShown updated_message) t <->
   exists includes, In (upgrade_call includes 0) (calls t)).
Proof.
  intros [t1 H | t1 upgrade H E | t1 upgrade H E].
  - split.
    + intros I; apply in_app_iff in I; destruct I as [I|[I|[]]]; [|discriminate I].
      destruct (ensure_trace_In _ _ _ _ H I) as [[l X]|(a & c & X & _)]; discriminate.
    + intros (inc & I). rewrite calls_app in I; simpl in I; rewrite app_nil_r in I.
      destruct (ensure_trace_no_upgrade _ _ _ _ _ H I).
  - split.
    + intros I; apply in_app_iff in I; destruct I as [I|I].
      * destruct (ensure_trace_In _ _ _ _ H I) as [[l X]|(a & c & X & _)];
          discriminate.
      * apply in_app_iff in I; destruct I as [I|[I|[]]]; [|discriminate I].
        apply command_events_In in I; destruct I as [[l X]|X]; discriminate.
    + intros (inc & I). rewrite !calls_app, calls_command in I; simpl in I.
      apply in_app_iff in I; destruct I as [I|[I|[]]].
      * destruct (ensure_trace_no_upgrade _ _ _ _ _ H I).
      * unfold upgrade_call in I; injection I as _ S; contradiction.
  - split; intros _.
    + exists (flat_map (fun selection => ["--include"; label selection]) selections).
      rewrite !calls_app, calls_command; simpl.
      apply in_app_iff; right; left.
      unfold upgrade_call; now rewrite E, upgrade_args_shape.
    + apply in_app_iff; right. apply in_app_iff; right. left; reflexivity.
Qed.

Lemma no_upgrade_in_fixed (includes : list string) (status c1 c2 : Z) :
  ~ In (upgrade_call includes status) [(list_args, c1); (outdated_args, c2)] /\
  ~ In (upgrade_call includes status) [(list_args, c1)].
Proof.
  split; intros I; simpl in I;
    repeat (destruct I as [I|I]; [discriminate I|]); exact I.
Qed.

Lemma prelude_command_no_success (cwd : string) (args : list string)
    (eo ee : bool) (child : Child) :
  ~ In (InformationShown updated_message)
       (command_events cwd "dotnet" args eo ee child) /\
  ~ In (InformationShown updated_message) prelude.
Proof.
  split; intros I.
  - apply command_events_In in I; destruct I as [[l X]|X]; discriminate.
  - simpl in I; repeat (destruct I as [I|I]; [discriminate I|]); exact I.
Qed.

(** X19.  A run reports that the packages were updated exactly when it made
    the upgrade call and that call exited with 0. *)
Theorem success_iff_upgraded (folder : option string) (t : list Event) :
  runs (run folder) t tt ->
  (In (InformationShown updated_message) t <->
   exists includes, In (upgrade_call includes 0) (calls t)).
Proof.
  intros H; apply run_shape in H.
  assert (fixed : forall cwd args eo ee child l,
             In (InformationShown updated_message)
                (command_events cwd "dotnet" args eo ee child ++ l) ->
             In (InformationShown updated_message) l).
  { intros cwd args eo ee child l I; apply in_app_iff in I; destruct I as [I|I];
      [destruct (proj1 (prelude_command_no_success cwd args eo ee child) I)
      | exact I]. }
  assert (start : forall l, In (InformationShown updated_message) (prelude ++ l) ->
                            In (InformationShown updated_message) l).
  { intros l I; apply in_app_iff in I; destruct I as [I|I]; [|exact I].
    simpl in I; repeat (destruct I as [I|I]; [discriminate I|]); destruct I. }
  destruct H as
    [ | cwd listing E1 | cwd listing outdated E1 E2
      | cwd listing outdated E1 E2 B | cwd listing outdated t' E1 E2 B P].
  - split; [intros [I|[]]; discriminate I | intros (inc & [])].
  - split.
    + intros I; apply start, fixed in I. destruct I as [I|[]]; discriminate I.
    + intros (inc & I). rewrite !calls_app, calls_command in I; simpl in I.
      destruct (proj2 (no_upgrade_in_fixed inc 0 _ 0) I).
  - split.
    + intros I; apply start, fixed, fixed in I. destruct I as [I|[]]; discriminate I.
    + intros (inc & I). rewrite !calls_app, !calls_command in I; simpl in I.
      destruct (proj1 (no_upgrade_in_fixed inc 0 _ _) I).
  - split.
    + intros I; apply start, fixed, fixed in I. destruct I as [I|[]]; discriminate I.
    + intros (inc & I). rewrite !calls_app, !calls_command in I; simpl in I.
      destruct (proj1 (no_upgrade_in_fixed inc 0 _ _) I).
  - assert (rest : (exists inc, In (upgrade_call inc 0)
                                   (calls (prelude
                                           ++ command_events cwd "dotnet" list_args
                                                true true listing
                                           ++ command_events cwd "dotnet"
                                                outdated_args false false outdated
                                           ++ t')))
                   <-> exists inc, In (upgrade_call inc 0) (calls t')).
    { rewrite !calls_app, !calls_command; simpl. split; intros (inc & I); exists inc.
      - destruct I as [I|[I|I]]; [discriminate I | discriminate I | exact I].
      - right; right; exact I. }
    rewrite rest; clear rest.
    assert (front : In (InformationShown updated_message)
                      (prelude
                       ++ command_events cwd "dotnet" list_args true true listing
                       ++ command_events cwd "dotnet" outdated_args false false
                            outdated
                       ++ t')
                    <-> In (InformationShown updated_message) t').
    { split; [intros I; apply start, fixed, fixed in I; exact I|].
      intros I; apply in_app_iff; right; apply in_app_iff; right;
        apply in_app_iff; right; exact I. }
    rewrite front; clear front.
    destruct P as [err P | P | pkgs answer P N A | pkgs sel t1 P N S U].
    + split; [|intros (inc & [])].
      intros I; simpl in I; repeat (destruct I as [I|I]; [discriminate I|]);
        destruct I.
    + split; [|intros (inc & [])].
      intros I; simpl in I; repeat (destruct I as [I|I]; [discriminate I|]);
        destruct I.
    + split; [|intros (inc & [])].
      intros I; simpl in I; repeat (destruct I as [I|I]; [discriminate I|]);
        destruct I.
    + rewrite <- (upgrade_trace_success _ _ _ U). simpl. split; [|auto].
      intros [I|I]; [discriminate I | exact I].
Qed.

Lemma ends_prepend (a b : list Event) :
  Forall (fun x => is_error x = false) a ->
  ends_with_notification b -> ends_with_notification (a ++ b).
Proof.
  intros Fa (before & e & -> & N & Fb).
  exists (a ++ before), e; split; [now rewrite app_assoc|].
  split; [exact N | apply Forall_app; auto].
Qed.

Lemma ends_single (e : Event) :
  is_notification e = true -> ends_with_notification [e].
Proof. intros N; exists [], e; repeat split; [exact N | constructor]. Qed.

Lemma command_no_error (cwd command : string) (args : list string)
    (eo ee : bool) (child : Child) :
  Forall (fun x => is_error x = false) (command_events cwd command args eo ee child).
Proof. apply Forall_command; reflexivity. Qed.

Lemma ensure_trace_no_error (cwd : string) (ok : bool) (t : list Event) :
  ensure_trace cwd ok t -> Forall (fun x => is_error x = false) t.
Proof.
  intros [probe E | probe install E]; [apply command_no_error|].
  apply Forall_app; split; [apply command_no_error|].
  constructor; [reflexivity | apply command_no_error].
Qed.

Lemma upgrade_trace_ends (cwd : string) (selections : list QuickPickItem)
    (t : list Event) :
  upgrade_trace cwd selections t -> ends_with_notification t.
Proof.
  intros [t1 H | t1 upgrade H E | t1 upgrade H E];
    apply ends_prepend; try (apply (ensure_trace_no_error _ _ _ H));
    try (apply ends_prepend; [apply command_no_error|]);
    apply ends_single; reflexivity.
Qed.

Lemma payload_trace_ends (cwd jsonPayload : string) (t : list Event) :
  payload_trace cwd jsonPayload t -> ends_with_notification t.
Proof.
  intros [err P | P | pkgs answer P N A | pkgs sel t1 P N S U].
  - apply (ends_prepend [_; _]); [repeat constructor | now apply ends_single].
  - now apply ends_single.
  - apply (ends_prepend [_]); [repeat constructor | now apply ends_single].
  - apply (ends_prepend [_]); [repeat constructor|].
    apply (upgrade_trace_ends _ _ _ U).
Qed.

(** X20.  Every run ends with a notification, an error or an information
    message, and shows no error message before that one. *)
Theorem run_ends_with_notification (folder : option string) (t : list Event) :
  runs (run folder) t tt -> ends_with_notification t.
Proof.
  intros H; apply run_shape in H.
  assert (P0 : Forall (fun x => is_error x = false) prelude)
    by (repeat constructor).
  destruct H as
    [ | cwd listing E1 | cwd listing outdated E1 E2
      | cwd listing outdated E1 E2 B | cwd listing outdated t' E1 E2 B P];
    [now apply ends_single | ..];
    apply ends_prepend; try exact P0;
    apply ends_prepend; try apply command_no_error;
    try (now apply ends_single);
    apply ends_prepend; try apply command_no_error;
    try (now apply ends_single).
  apply (payload_trace_ends _ _ _ P).
Qed.

(** Take the membership of an event in a trace apart, down to the
    events the trace is written with. *)
Ltac scan I :=
  repeat match type of I with
         | In _ (_ ++ _) => apply in_app_iff in I; destruct I as [I|I]
         | In _ (command_events _ _ _ _ _ _) =>
             apply command_events_In in I; destruct I as [[? I]|I]
         | In _ prelude => unfold prelude in I
         | In _ (_ :: _) => destruct I as [I|I]
         | In _ [] => destruct I
         | In _ ?t =>
             match goal with
             | H : ensure_trace _ _ t |- _ =>
                 let X := fresh "X" in
                 pose proof (ensure_trace_In _ _ _ _ H I) as X; clear I;
                 destruct X as [[? X]|(? & ? & X & [?|?])]
             end
         end.

Lemma in_last {A : Type} (l : list A) (x : A) : In x (l ++ [x]).
Proof. apply in_app_iff; right; left; reflexivity. Qed.

(** X21.  The picker shows the candidates normalised from the payload of the
    outdated check, one item per candidate in their order, and it is
    shown only when there is a candidate. *)
Theorem picker_shows_candidates (folder : option string) (t : list Event)
    (items : list QuickPickItem) (placeHolder : string)
    (answer : option (list QuickPickItem)) :
  runs (run folder) t tt -> In (Picked items placeHolder answer) t ->
  exists cwd outdated pkgs,
    In (Spawned cwd "dotnet" outdated_args false false outdated) t /\
    parseOutdatedPackages (select_payload (captured outdated)) = inr pkgs /\
    pkgs <> [] /\ items = map present pkgs.
Proof.
  intros H I; apply run_shape in H.
  destruct H as
    [ | cwd listing E1 | cwd listing outdated E1 E2
      | cwd listing outdated E1 E2 B | cwd listing outdated t' E1 E2 B P];
    scan I; try discriminate I.
  assert (O : In (Spawned cwd "dotnet" outdated_args false false outdated)
                (prelude
                 ++ command_events cwd "dotnet" list_args true true listing
                 ++ command_events cwd "dotnet" outdated_args false false outdated
                 ++ t')).
  { apply in_app_iff; right. apply in_app_iff; right. apply in_app_iff; left.
    right; left; reflexivity. }
  destruct P as [err P | P | pkgs answer' P N A | pkgs sel t1 P N S U];
    scan I; try discriminate I.
  - injection I as <- _ _. exists cwd, outdated, pkgs; auto.
  - injection I as <- _ _. exists cwd, outdated, pkgs; auto.
  - destruct U as [t2 U | t2 upgrade U E | t2 upgrade U E];
      scan I; discriminate.
Qed.

(** X22.  The upgrade is called only after the picker was answered with a
    non-empty selection, and its arguments are those of that selection. *)
Theorem upgrade_follows_selection (folder : option string) (t : list Event)
    (cwd command : string) (includes : list string) (eo ee : bool) (child : Child) :
  runs (run folder) t tt ->
  In (Spawned cwd command ("outdated" :: "--upgrade" :: includes) eo ee child) t ->
  exists items placeHolder selections,
    In (Picked items placeHolder (Some selections)) t /\
    selections <> [] /\
    "outdated" :: "--upgrade" :: includes = upgrade_args selections.
Proof.
  intros H I; apply run_shape in H.
  destruct H as
    [ | cwd' listing E1 | cwd' listing outdated E1 E2
      | cwd' listing outdated E1 E2 B | cwd' listing outdated t' E1 E2 B P];
    scan I; try discriminate I.
  destruct P as [err P | P | pkgs answer' P N A | pkgs sel t1 P N S U];
    scan I; try discriminate I.
  assert (Pk : In (Picked (map present pkgs) "Select packages to upgrade" (Some sel))
                 (prelude
                  ++ command_events cwd' "dotnet" list_args true true listing
                  ++ command_events cwd' "dotnet" outdated_args false false outdated
                  ++ Picked (map present pkgs) "Select packages to upgrade" (Some sel)
                     :: t1)).
  { apply in_app_iff; right. apply in_app_iff; right. apply in_app_iff; right.
    left; reflexivity. }
  destruct U as [t2 U | t2 upgrade U E | t2 upgrade U E];
    scan I; subst; try discriminate.
  - injection I as _ _ A _ _ _. eauto 6.
  - injection I as _ _ A _ _ _. eauto 6.
Qed.

(** X23.  A parse failure is reported with the message of what was thrown,
    right after the payload of the outdated check was written to the
    output channel as it was received. *)
Theorem parse_failure_echoes_payload (folder : option string) (t : list Event)
    (reason : string) :
  runs (run folder) t tt ->
  In (ErrorShown ("Failed to parse outdated package list: " ++ reason)) t ->
  exists cwd outdated err before,
    In (Spawned cwd "dotnet" outdated_args false false outdated) t /\
    parseOutdatedPackages (select_payload (captured outdated)) = inl err /\
    message err = reason /\
    t = before ++ [LineAppended "Failed to parse JSON. Raw output:";
                   LineAppended (select_payload (captured outdated));
                   ErrorShown ("Failed to parse outdated package list: " ++ reason)].
Proof.
  intros H I; apply run_shape in H.
  destruct H as
    [ | cwd listing E1 | cwd listing outdated E1 E2
      | cwd listing outdated E1 E2 B | cwd listing outdated t' E1 E2 B P];
    scan I; try discriminate I.
  assert (O : In (Spawned cwd "dotnet" outdated_args false false outdated)
                (prelude
                 ++ command_events cwd "dotnet" list_args true true listing
                 ++ command_events cwd "dotnet" outdated_args false false outdated
                 ++ t')).
  { apply in_app_iff; right. apply in_app_iff; right. apply in_app_iff; left.
    right; left; reflexivity. }
  destruct P as [err P | P | pkgs answer' P N A | pkgs sel t1 P N S U];
    scan I; try discriminate I.
  - injection I as I. subst reason.
    exists cwd, outdated, err,
      (prelude ++ command_events cwd "dotnet" list_args true true listing
       ++ command_events cwd "dotnet" outdated_args false false outdated).
    repeat split; auto. now rewrite <- !app_assoc.
  - destruct U as [t2 U | t2 upgrade U E | t2 upgrade U E];
      scan I; discriminate.
Qed.

Lemma logged_app (a b : list Event) :
  logged a -> logged b -> ~ starts_with_spawn b -> logged (a ++ b).
Proof.
  intros La Lb Nb before cwd command args eo ee child after E.
  apply app_eq_app in E; destruct E as [l [[-> E] | [-> E]]].
  - destruct l as [|e l]; simpl in E.
    + exfalso; apply Nb; rewrite <- E; exact I.
    + injection E as <- ->. apply (La before cwd command args eo ee child l).
      reflexivity.
  - destruct (Lb l cwd command args eo ee child after E) as [earlier ->].
    exists (a ++ earlier); now rewrite app_assoc.
Qed.

Lemma logged_no_spawn (t : list Event) :
  (forall cwd command args eo ee child,
      ~ In (Spawned cwd command args eo ee child) t) ->
  logged t.
Proof.
  intros N before cwd command args eo ee child after ->.
  exfalso; apply (N cwd command args eo ee child).
  apply in_app_iff; right; left; reflexivity.
Qed.

Lemma logged_command (cwd command : string) (args : list string)
    (eo ee : bool) (c : Child) :
  logged (command_events cwd command args eo ee c).
Proof.
  intros before cwd' command' args' eo' ee' child after E.
  unfold command_events in E.
  destruct before as [|e1 [|e2 before]]; simpl in E.
  - discriminate E.
  - injection E as <- _ <- <- _ _ _ _.
    exists []; reflexivity.
  - injection E as _ _ E. exfalso.
    destruct (child_end c); destruct before as [|e3 [|e4 before]];
      simpl in E; discriminate E.
Qed.

Lemma ensure_trace_logged (cwd : string) (ok : bool) (t : list Event) :
  ensure_trace cwd ok t -> logged t /\ ~ starts_with_spawn t.
Proof.
  intros [probe E | probe install E]; (split; [|intros []]).
  - apply logged_command.
  - apply logged_app; [apply logged_command| |intros []].
    apply (logged_app [_]); [apply logged_no_spawn|apply logged_command|intros []].
    intros ? ? ? ? ? ? [X|[]]; discriminate X.
Qed.

Lemma logged_single (e : Event) :
  (forall cwd command args eo ee child,
      e <> Spawned cwd command args eo ee child) ->
  logged [e].
Proof.
  intros N; apply logged_no_spawn.
  intros ? ? ? ? ? ? [X|[]]; exact (N _ _ _ _ _ _ X).
Qed.

Lemma not_spawn_app (a b : list Event) :
  a <> [] -> ~ starts_with_spawn a -> ~ starts_with_spawn (a ++ b).
Proof. destruct a as [|e a]; [congruence | intros _ N; exact N]. Qed.

Lemma upgrade_trace_logged (cwd : string) (selections : list QuickPickItem)
    (t : list Event) :
  upgrade_trace cwd selections t -> logged t /\ ~ starts_with_spawn t.
Proof.
  assert (ne : forall ok t1, ensure_trace cwd ok t1 -> t1 <> [])
    by (intros ok t1 [probe E | probe install E]; discriminate).
  intros [t1 H | t1 upgrade H E | t1 upgrade H E];
    destruct (ensure_trace_logged _ _ _ H) as [L N];
    (split; [|apply not_spawn_app; [apply (ne _ _ H) | exact N]]).
  - apply logged_app; [exact L | apply logged_single; discriminate | intros []].
  - apply logged_app; [exact L | | intros []].
    apply logged_app; [apply logged_command | apply logged_single; discriminate
                      | intros []].
  - apply logged_app; [exact L | | intros []].
    apply logged_app; [apply logged_command | apply logged_single; discriminate
                      | intros []].
Qed.

Lemma payload_trace_logged (cwd jsonPayload : string) (t : list Event) :
  payload_trace cwd jsonPayload t -> logged t /\ ~ starts_with_spawn t.
Proof.
  intros [err P | P | pkgs answer P N A | pkgs sel t1 P N S U];
    (split; [|intros []]).
  - apply logged_no_spawn; intros ? ? ? ? ? ? I; scan I; discriminate I.
  - apply logged_single; discriminate.
  - apply logged_no_spawn; intros ? ? ? ? ? ? I; scan I; discriminate I.
  - destruct (upgrade_trace_logged _ _ _ U) as [L Ns].
    apply (logged_app [_]); [apply logged_single; discriminate | exact L | exact Ns].
Qed.

(** X24.  Every call of a run comes right after the line of the output
    channel that echoes its program and its arguments. *)
Theorem run_logs_each_call (folder : option string) (t : list Event) :
  runs (run folder) t tt -> logged t.
Proof.
  intros H; apply run_shape in H.
  assert (P0 : logged prelude)
    by (apply logged_no_spawn; intros ? ? ? ? ? ? I; scan I; discriminate I).
  destruct H as
    [ | cwd listing E1 | cwd listing outdated E1 E2
      | cwd listing outdated E1 E2 B | cwd listing outdated t' E1 E2 B P].
  - apply logged_single; discriminate.
  - apply logged_app; [exact P0 | | intros []].
    apply logged_app; [apply logged_command | apply logged_single; discriminate
                      | intros []].
  - apply logged_app; [exact P0 | | intros []].
    apply logged_app; [apply logged_command | | intros []].
    apply logged_app; [apply logged_command | apply logged_single; discriminate
                      | intros []].
  - apply logged_app; [exact P0 | | intros []].
    apply logged_app; [apply logged_command | | intros []].
    apply logged_app; [apply logged_command | apply logged_single; discriminate
                      | intros []].
  - destruct (payload_trace_logged _ _ _ P) as [L Ns].
    apply logged_app; [exact P0 | | intros []].
    apply logged_app; [apply logged_command | | intros []].
    apply logged_app; [apply logged_command | exact L | exact Ns].
Qed.

End Extension.

(* ================================================================== *)
(** * The model on the sample platform *)

Lemma unit_compare_total (a b : string) :
  0 < unit_compare a b -> unit_compare b a <= 0.
Proof.
  unfold unit_compare; rewrite (String.compare_antisym a b).
  destruct (String.compare b a); simpl; lia.
Qed.

Lemma compare_not_Gt_trans (a b c : string) :
  String.compare a b <> Gt -> String.compare b c <> Gt -> String.compare a c <> Gt.
Proof.
  revert b c; induction a as [|x a IH]; intros [|y b] [|z c]; simpl;
    try congruence.
  unfold Ascii.compare.
  destruct (N.compare_spec (N_of_ascii x) (N_of_ascii y)) as [Exy|Lxy|Gxy];
    [| |congruence];
    (destruct (N.compare_spec (N_of_ascii y) (N_of_ascii z)) as [Eyz|Lyz|Gyz];
     [| |congruence]).
  - rewrite Exy, Eyz, N.compare_refl. apply IH.
  - intros _ _. replace (N_of_ascii x ?= N_of_ascii z)%N with Lt;
      [discriminate | symmetry; apply N.compare_lt_iff; lia].
  - intros _ _. replace (N_of_ascii x ?= N_of_ascii z)%N with Lt;
      [discriminate | symmetry; apply N.compare_lt_iff; lia].
  - intros _ _. replace (N_of_ascii x ?= N_of_ascii z)%N with Lt;
      [discriminate | symmetry; apply N.compare_lt_iff; lia].
Qed.

Lemma unit_compare_trans (a b c : string) :
  unit_compare a b <= 0 -> unit_compare b c <= 0 -> unit_compare a c <= 0.
Proof.
  unfold unit_compare; intros Hab Hbc.
  assert (Nab : String.compare a b <> Gt)
    by (destruct (String.compare a b); [discriminate | discriminate | lia]).
  assert (Nbc : String.compare b c <> Gt)
    by (destruct (String.compare b c); [discriminate | discriminate | lia]).
  pose proof (compare_not_Gt_trans a b c Nab Nbc) as Nac.
  destruct (String.compare a c); [lia | lia | congruence].
Qed.

(** The payload of the specification: one candidate, with the versions
    and the context of its only entry, shown as a version delta. *)
Example normalize_single :
  normalize Z print_Z unit_compare doc_single = inr [candidate_single] /\
  description (present candidate_single) = "13.0.1 -> 13.0.3".
Proof. split; reflexivity. Qed.

(** One id under two frameworks merges into one candidate with two
    contexts, shown with the marker when the resolved versions differ. *)
Example normalize_two_frameworks :
  normalize Z print_Z unit_compare doc_two_frameworks
  = inr [candidate_Bar; candidate_Foo] /\
  map description (map present [candidate_Bar; candidate_Foo])
  = ["1.0 -> 2.0"; "multiple versions"].
Proof. split; reflexivity. Qed.

(** The frameworks in the other order give the same candidates; the
    sets of a candidate keep the order in which they were filled. *)
Example normalize_two_frameworks_swapped :
  normalize Z print_Z unit_compare doc_two_frameworks_swapped
  = inr [candidate_Bar; candidate_Foo_swapped].
Proof. reflexivity. Qed.

(** From the text of the tool on: extraction, parsing, normalisation. *)
Example parse_sample_output :
  parseOutdatedPackages Z print_Z unit_compare sample_parse sample_output
  = inr [candidate_Bar; candidate_Foo].
Proof. vm_compute; reflexivity. Qed.

(** A name that is not a string is printed as a template literal does,
    and an object with an own [toString] makes the normaliser throw. *)
Example context_of_odd_names :
  normalize Z print_Z unit_compare
    (sample_document
       [JObject [("name", JArray [JNumber 1; JNull; JBool true]);
                 ("frameworks",
                  JArray [JObject [("topLevelPackages",
                                    JArray [sample_package "Foo" "1.0" "2.0"])]])]])
  = inr [{| id := "Foo"; resolvedVersions := ["1.0"]; latestVersions := ["2.0"];
            contexts := ["1,,true (unknown)"] |}] /\
  normalize Z print_Z unit_compare
    (sample_document
       [JObject [("name", JObject [("toString", JNumber 1)]);
                 ("frameworks",
                  JArray [sample_framework "net8.0"
                            [sample_package "Foo" "1.0" "2.0"]])]])
  = inl (TypeError cannot_convert).
Proof. split; reflexivity. Qed.

(** The presenter tests its two versions for truthiness, so a set that
    holds only the empty string would be shown with the marker;
    normalisation never builds such a set. *)
Example present_empty_string :
  description (present {| id := "Foo"; resolvedVersions := [""];
                          latestVersions := ["2.0"]; contexts := ["App (net8.0)"] |})
  = "multiple versions".
Proof. reflexivity. Qed.

(* ================================================================== *)
(** * The theorems at the sample documents *)

Lemma presenter_description_witness :
  normalize Z print_Z unit_compare doc_two_frameworks
  = inr [candidate_Bar; candidate_Foo] /\
  description (present candidate_Bar) = "1.0 -> 2.0" /\
  description (present candidate_Foo) = "multiple versions".
Proof.
  split; [reflexivity|]. split.
  - apply (presenter_description Z print_Z unit_compare doc_two_frameworks
             [candidate_Bar; candidate_Foo] candidate_Bar);
      [reflexivity | simpl; auto].
  - apply (presenter_description Z print_Z unit_compare doc_two_frameworks
             [candidate_Bar; candidate_Foo] candidate_Foo);
      [reflexivity | simpl; auto].
Defined.

(** A version that is the empty string is present and is a string, yet
    it is not added: the package has a usable id, its resolved version
    is the empty string, and the candidate does not hold it. *)
Lemma empty_version_not_recorded :
  normalize Z print_Z unit_compare doc_empty_version
  = inr [candidate_empty_version] /\
  coalesce Z (get Z (sample_package "Foo" "" "2.0") "id")
             (get Z (sample_package "Foo" "" "2.0") "name")
  = Some (JString "Foo") /\
  get Z (sample_package "Foo" "" "2.0") "resolvedVersion" = Some (JString "") /\
  ~ (exists c, In c [candidate_empty_version] /\ id c = "Foo" /\
               In "" (resolvedVersions c)).
Proof.
  repeat split; try reflexivity.
  intros (c & [<-|[]] & _ & []).
Qed.

Lemma usable_package_is_recorded_witness :
  normalize Z print_Z unit_compare doc_two_frameworks
  = inr [candidate_Bar; candidate_Foo] /\
  exists c, In c [candidate_Bar; candidate_Foo] /\ id c = "Foo" /\
            In "App (net8.0)" (contexts c) /\
            In "13.0.5" (resolvedVersions c) /\
            In "13.0.3" (latestVersions c).
Proof.
  split; [reflexivity|].
  destruct (usable_package_is_recorded Z print_Z unit_compare doc_two_frameworks
              (sample_project "App"
                 [sample_framework "net6.0" [sample_package "Foo" "13.0.1" "13.0.3"];
                  sample_framework "net8.0" [sample_package "Foo" "13.0.5" "13.0.3";
                                             sample_package "Bar" "1.0" "2.0"]])
              (sample_framework "net8.0" [sample_package "Foo" "13.0.5" "13.0.3";
                                          sample_package "Bar" "1.0" "2.0"])
              (sample_package "Foo" "13.0.5" "13.0.3")
              [candidate_Bar; candidate_Foo] "Foo")
    as (c & p & f & Hin & Hid & Hp & Hf & Hctx & Hr & Hl);
    try reflexivity; try (simpl; auto; fail); try discriminate.
  injection Hp as <-. injection Hf as <-.
  exists c. split; [exact Hin|]. split; [exact Hid|]. split; [exact Hctx|].
  split; [apply Hr | apply Hl]; try reflexivity; discriminate.
Defined.

Lemma normalize_one_candidate_per_id_witness :
  normalize Z print_Z unit_compare doc_two_frameworks
  = inr [candidate_Bar; candidate_Foo] /\
  exists es,
    entries Z print_Z doc_two_frameworks = inr es /\
    NoDup (map id [candidate_Bar; candidate_Foo]) /\
    (forall k, In k (map id [candidate_Bar; candidate_Foo]) <->
               exists e, In e es /\ entry_id e = k) /\
    (forall c, In c [candidate_Bar; candidate_Foo] -> merges es c /\ sets_NoDup c).
Proof.
  split; [reflexivity|].
  apply (normalize_one_candidate_per_id Z print_Z unit_compare doc_two_frameworks).
  reflexivity.
Defined.

Lemma normalize_candidates_well_formed_witness :
  normalize Z print_Z unit_compare doc_two_frameworks
  = inr [candidate_Bar; candidate_Foo] /\
  (forall v, In v (resolvedVersions candidate_Foo) -> v <> "") /\
  (forall v, In v (latestVersions candidate_Foo) -> v <> "") /\
  contexts candidate_Foo <> [].
Proof.
  split; [reflexivity|].
  apply (normalize_candidates_well_formed Z print_Z unit_compare doc_two_frameworks
           [candidate_Bar; candidate_Foo] candidate_Foo);
    [reflexivity | simpl; auto].
Defined.

Lemma normalize_order_independent_witness :
  exists out1 out2,
    normalize Z print_Z unit_compare doc_two_frameworks = inr out1 /\
    normalize Z print_Z unit_compare doc_two_frameworks_swapped = inr out2 /\
    same_candidates out1 out2 /\
    NoDup (map id out1) /\ NoDup (map id out2) /\
    StronglySorted (id_le unit_compare) out1 /\
    StronglySorted (id_le unit_compare) out2.
Proof.
  eapply (normalize_order_independent Z print_Z unit_compare
            unit_compare_total unit_compare_trans
            doc_two_frameworks doc_two_frameworks_swapped);
    [reflexivity | reflexivity |].
  apply Permutation_cons_append.
Defined.

Lemma parseOutdatedPackages_sorted_witness :
  parseOutdatedPackages Z print_Z unit_compare sample_parse sample_output
  = inr [candidate_Bar; candidate_Foo] /\
  StronglySorted (fun a b => unit_compare (id a) (id b) <= 0)
                 [candidate_Bar; candidate_Foo].
Proof.
  assert (H : parseOutdatedPackages Z print_Z unit_compare sample_parse sample_output
              = inr [candidate_Bar; candidate_Foo]) by (vm_compute; reflexivity).
  split; [exact H|].
  exact (parseOutdatedPackages_sorted Z print_Z unit_compare sample_parse
           unit_compare_total unit_compare_trans sample_output _ H).
Defined.

Lemma payload_selection_witness :
  code outdated_result_on_stderr = 0 /\
  blank (stdout outdated_result_on_stderr) /\
  ~ blank (stderr outdated_result_on_stderr) /\
  with_outdated Z print_Z unit_compare sample_parse "/work" outdated_result_on_stderr
  = with_payload Z print_Z unit_compare sample_parse "/work" sample_output.
Proof.
  assert (B1 : blank (stdout outdated_result_on_stderr)) by reflexivity.
  assert (B2 : ~ blank (stderr outdated_result_on_stderr))
    by (vm_compute; discriminate).
  split; [reflexivity|]. split; [exact B1|]. split; [exact B2|].
  exact (proj1 (proj2 (payload_selection Z print_Z unit_compare sample_parse
                         "/work" outdated_result_on_stderr eq_refl)) B1 B2).
Defined.

Lemma empty_selection_stops_witness :
  runs (run Z print_Z unit_compare sample_parse (Some "/work"))
       (scripted_trace Z print_Z unit_compare sample_parse (Some "/work")
          [quiet_child; outdated_child] [None]) tt /\
  skipn 8 (scripted_trace Z print_Z unit_compare sample_parse (Some "/work")
             [quiet_child; outdated_child] [None])
  = [InformationShown nothing_selected_message] /\
  Forall (fun e => is_tool_call e = false)
         (scripted_trace Z print_Z unit_compare sample_parse (Some "/work")
            [quiet_child; outdated_child] [None]).
Proof.
  assert (R : runs (run Z print_Z unit_compare sample_parse (Some "/work"))
                   (scripted_trace Z print_Z unit_compare sample_parse (Some "/work")
                      [quiet_child; outdated_child] [None]) tt).
  { pose proof (execute_runs (run Z print_Z unit_compare sample_parse (Some "/work"))
                  [quiet_child; outdated_child] [None]) as E.
    destruct (snd (execute _ _ _)) in E. exact E. }
  split; [exact R|].
  destruct (empty_selection_stops Z print_Z unit_compare sample_parse (Some "/work")
              (scripted_trace Z print_Z unit_compare sample_parse (Some "/work")
                 [quiet_child; outdated_child] [None])
              (firstn 7 (scripted_trace Z print_Z unit_compare sample_parse
                           (Some "/work") [quiet_child; outdated_child] [None]))
              (skipn 8 (scripted_trace Z print_Z unit_compare sample_parse
                          (Some "/work") [quiet_child; outdated_child] [None]))
              (map present [candidate_Bar; candidate_Foo])
              "Select packages to upgrade" None R)
    as (_ & A & F);
    [vm_compute; reflexivity | left; reflexivity |].
  split; [exact A | exact F].
Defined.

(* ================================================================== *)
(** * The further theorems at the samples *)

Lemma sample_run (folder : option string) (children : list Child)
    (picks : list (option (list QuickPickItem))) :
  runs (run Z print_Z unit_compare sample_parse folder)
       (scripted_trace Z print_Z unit_compare sample_parse folder children picks) tt.
Proof.
  pose proof (execute_runs (run Z print_Z unit_compare sample_parse folder)
                children picks) as E.
  destruct (snd (execute _ _ _)) in E. exact E.
Qed.

Lemma id_shadows_name_witness :
  get Z package_with_empty_id "name" = Some (JString "Foo") /\
  read_package Z print_Z (JString "App") (JString "net8.0") package_with_empty_id
  = inr None.
Proof.
  split; [reflexivity|].
  apply (id_shadows_name Z print_Z (JString "App") (JString "net8.0")
           package_with_empty_id (JString ""));
    [reflexivity | discriminate | intros s H; injection H as <-; reflexivity].
Defined.


Lemma merge_known_entry_witness :
  entries Z print_Z doc_two_frameworks
  = inr [entry_Foo_net6; entry_Foo_net8; entry_Bar_net8] /\
  merge_entry (accumulate [entry_Foo_net6; entry_Foo_net8; entry_Bar_net8])
              entry_Foo_net6
  = accumulate [entry_Foo_net6; entry_Foo_net8; entry_Bar_net8].
Proof.
  split; [reflexivity|].
  apply (merge_known_entry [entry_Foo_net6; entry_Foo_net8; entry_Bar_net8]
           entry_Foo_net6).
  left; reflexivity.
Defined.

Lemma labels_identify_candidates_witness :
  map label (map present [candidate_Bar; candidate_Foo]) = ["Bar"; "Foo"] /\
  NoDup (map label (map present [candidate_Bar; candidate_Foo])).
Proof.
  split; [reflexivity|].
  apply (labels_identify_candidates Z print_Z unit_compare doc_two_frameworks
           [candidate_Bar; candidate_Foo]).
  reflexivity.
Defined.

Lemma single_version_iff_witness :
  exists es,
    entries Z print_Z doc_two_frameworks = inr es /\
    (forall r, resolvedVersions candidate_Bar = [r] <->
       (exists e, In e es /\ entry_id e = id candidate_Bar /\
                  entry_resolved e = Some r /\ r <> "")
       /\ (forall e v, In e es -> entry_id e = id candidate_Bar ->
                       entry_resolved e = Some v -> v <> "" -> v = r)) /\
    (forall l, latestVersions candidate_Bar = [l] <->
       (exists e, In e es /\ entry_id e = id candidate_Bar /\
                  entry_latest e = Some l /\ l <> "")
       /\ (forall e v, In e es -> entry_id e = id candidate_Bar ->
                       entry_latest e = Some v -> v <> "" -> v = l)).
Proof.
  apply (single_version_iff Z print_Z unit_compare doc_two_frameworks
           [candidate_Bar; candidate_Foo] candidate_Bar);
    [reflexivity | left; reflexivity].
Defined.

Lemma run_call_sequence_witness :
  calls (scripted_trace Z print_Z unit_compare sample_parse (Some "/work")
           upgrade_script upgrade_picks)
  = [(list_args, 0); (outdated_args, 0); (probe_args, 0);
     (["outdated"; "--upgrade"; "--include"; "Foo"], 0)] /\
  call_sequence
    (calls (scripted_trace Z print_Z unit_compare sample_parse (Some "/work")
              upgrade_script upgrade_picks)).
Proof.
  split; [vm_compute; reflexivity|].
  apply (run_call_sequence Z print_Z unit_compare sample_parse (Some "/work")).
  apply sample_run.
Defined.

Lemma run_spawns_witness :
  Forall (spawn_ok "/work")
    (scripted_trace Z print_Z unit_compare sample_parse (Some "/work")
       upgrade_script upgrade_picks).
Proof.
  apply (run_spawns Z print_Z unit_compare sample_parse "/work").
  apply sample_run.
Defined.

Lemma success_iff_upgraded_witness :
  In (InformationShown updated_message)
     (scripted_trace Z print_Z unit_compare sample_parse (Some "/work")
        upgrade_script upgrade_picks) /\
  exists includes,
    In (upgrade_call includes 0)
       (calls (scripted_trace Z print_Z unit_compare sample_parse (Some "/work")
                 upgrade_script upgrade_picks)).
Proof.
  assert (I : In (InformationShown updated_message)
                (scripted_trace Z print_Z unit_compare sample_parse (Some "/work")
                   upgrade_script upgrade_picks))
    by (vm_compute; repeat (try (left; reflexivity); right)).
  split; [exact I|].
  apply (success_iff_upgraded Z print_Z unit_compare sample_parse (Some "/work"));
    [apply sample_run | exact I].
Defined.

Lemma run_ends_with_notification_witness :
  ends_with_notification
    (scripted_trace Z print_Z unit_compare sample_parse (Some "/work")
       garbage_script []).
Proof.
  apply (run_ends_with_notification Z print_Z unit_compare sample_parse
           (Some "/work")).
  apply sample_run.
Defined.

Lemma picker_shows_candidates_witness :
  exists cwd outdated pkgs,
    In (Spawned cwd "dotnet" outdated_args false false outdated)
       (scripted_trace Z print_Z unit_compare sample_parse (Some "/work")
          upgrade_script upgrade_picks) /\
    parseOutdatedPackages Z print_Z unit_compare sample_parse
      (select_payload (captured outdated)) = inr pkgs /\
    pkgs <> [] /\
    map present [candidate_Bar; candidate_Foo] = map present pkgs.
Proof.
  apply (picker_shows_candidates Z print_Z unit_compare sample_parse (Some "/work")
           _ _ "Select packages to upgrade" (Some [present candidate_Foo]));
    [apply sample_run|].
  vm_compute; repeat (try (left; reflexivity); right).
Defined.

Lemma upgrade_follows_selection_witness :
  exists items placeHolder selections,
    In (Picked items placeHolder (Some selections))
       (scripted_trace Z print_Z unit_compare sample_parse (Some "/work")
          upgrade_script upgrade_picks) /\
    selections <> [] /\
    ["outdated"; "--upgrade"; "--include"; "Foo"] = upgrade_args selections.
Proof.
  apply (upgrade_follows_selection Z print_Z unit_compare sample_parse
           (Some "/work") _ "/work" "dotnet" ["--include"; "Foo"] true true
           quiet_child);
    [apply sample_run|].
  vm_compute; repeat (try (left; reflexivity); right).
Defined.

Lemma parse_failure_echoes_payload_witness :
  exists cwd outdated err before,
    In (Spawned cwd "dotnet" outdated_args false false outdated)
       (scripted_trace Z print_Z unit_compare sample_parse (Some "/work")
          garbage_script []) /\
    parseOutdatedPackages Z print_Z unit_compare sample_parse
      (select_payload (captured outdated)) = inl err /\
    message err = "Unexpected token" /\
    scripted_trace Z print_Z unit_compare sample_parse (Some "/work")
      garbage_script []
    = before ++ [LineAppended "Failed to parse JSON. Raw output:";
                 LineAppended (select_payload (captured outdated));
                 ErrorShown "Failed to parse outdated package list: Unexpected token"].
Proof.
  apply (parse_failure_echoes_payload Z print_Z unit_compare sample_parse
           (Some "/work") _ "Unexpected token");
    [apply sample_run|].
  vm_compute; repeat (try (left; reflexivity); right).
Defined.

Lemma run_logs_each_call_witness :
  logged
    (scripted_trace Z print_Z unit_compare sample_parse (Some "/work")
       upgrade_script upgrade_picks).
Proof.
  apply (run_logs_each_call Z print_Z unit_compare sample_parse (Some "/work")).
  apply sample_run.
Defined.
